(** * Shallow embedding of [filter_ips.py] (yifangip/CF-PROXYIP)

    Python [str] values are modelled as lists of Unicode code points
    ([ustr]); the probe API's JSON answers as the inductive [json]; the
    concurrent [validate_country] as an executable step function over an
    explicit state, one event per atomic action of a worker thread or of
    the main thread. *)

From Stdlib Require Import ZArith NArith Ascii.
From Stdlib Require Import Strings.String.
From stdpp Require Import base list gmap sorting.

Abbreviation ustr := (list N).

(** ASCII literal as a code-point string. *)
Definition u (s : String.string) : ustr :=
  map (fun c => N.of_nat (nat_of_ascii c)) (String.list_ascii_of_string s).
Arguments u s%_string.


(** ** Python string primitives *)

(** [str.isspace] for a single code point (the characters Python treats
    as whitespace in [str.strip()] with no argument). *)
Definition is_space (c : N) : bool :=
  ((9 <=? c) && (c <=? 13))%N || ((28 <=? c) && (c <=? 32))%N
  || (c =? 133)%N || (c =? 160)%N || (c =? 5760)%N
  || ((8192 <=? c) && (c <=? 8202))%N
  || (c =? 8232)%N || (c =? 8233)%N || (c =? 8239)%N
  || (c =? 8287)%N || (c =? 12288)%N.

Fixpoint lstrip (s : ustr) : ustr :=
  match s with
  | [] => []
  | c :: s' => if is_space c then lstrip s' else s
  end.

Definition rstrip (s : ustr) : ustr := rev (lstrip (rev s)).

(** [s.strip()] *)
Definition strip (s : ustr) : ustr := rstrip (lstrip s).

(** [s.split(sep)] for a one-character separator: keeps empty pieces. *)
Fixpoint split_on (sep : N) (s : ustr) : list ustr :=
  match s with
  | [] => [[]]
  | c :: s' =>
      if (c =? sep)%N then [] :: split_on sep s'
      else match split_on sep s' with
           | [] => [[c]]
           | w :: ws => (c :: w) :: ws
           end
  end.

Fixpoint is_prefix (p s : ustr) : bool :=
  match p, s with
  | [], _ => true
  | _ :: _, [] => false
  | a :: p', b :: s' => (a =? b)%N && is_prefix p' s'
  end.

(** [t in s] (substring test) *)
Fixpoint contains (t s : ustr) : bool :=
  is_prefix t s || match s with [] => false | _ :: s' => contains t s' end.

(** [line.split('#')[0]] *)
Definition hash_char : N := 35%N.
Definition ip_port (line : ustr) : ustr := hd [] (split_on hash_char line).

Definition is_upper (c : N) : bool := (65 <=? c)%N && (c <=? 90)%N.

(** [re.search(r'#([A-Z]{2})$', s)]: without MULTILINE, [$] matches at
    the end of the string or just before a final newline. Returns
    [group(1)] on a match. *)
Definition regex_country (s : ustr) : option ustr :=
  match rev s with
  | b :: a :: h :: _ =>
      if (h =? hash_char)%N && is_upper a && is_upper b then Some [a; b]
      else match rev s with
           | nl :: b' :: a' :: h' :: _ =>
               if (nl =? 10)%N && (h' =? hash_char)%N && is_upper a' && is_upper b'
               then Some [a'; b'] else None
           | _ => None
           end
  | _ => None
  end.

(** [sep.join(xs)] *)
Fixpoint join (sep : ustr) (xs : list ustr) : ustr :=
  match xs with
  | [] => []
  | [x] => x
  | x :: xs' => x ++ sep ++ join sep xs'
  end.

(** Python's [<] on [str]: code-point lexicographic order. *)
Fixpoint str_ltb (s t : ustr) : bool :=
  match s, t with
  | [], [] => false
  | [], _ :: _ => true
  | _ :: _, [] => false
  | a :: s', b :: t' =>
      if (a <? b)%N then true else if (b <? a)%N then false else str_ltb s' t'
  end.

(** ** Decimal rendering of integers ([str(int)]) *)
Fixpoint dec_digits (fuel : nat) (n : N) (acc : ustr) : ustr :=
  match fuel with
  | O => acc
  | S f =>
      let acc' := (48 + n mod 10)%N :: acc in
      if (n <? 10)%N then acc' else dec_digits f (n / 10)%N acc'
  end.

Definition N_to_dec (n : N) : ustr := dec_digits (S (N.size_nat n)) n [].

Definition Z_to_dec (z : Z) : ustr :=
  if (z <? 0)%Z then u "-" ++ N_to_dec (Z.to_N (- z)) else N_to_dec (Z.to_N z).

(** ** JSON values as returned by [resp.json()] *)
Local Set Warnings "-register-all".
Inductive json :=
| JNull
| JBool (b : bool)
| JInt (z : Z)
| JFloat (repr : ustr)   (* a float, kept as the text Python's [repr] gives *)
| JStr (s : ustr)
| JArr (l : list json)
| JObj (kvs : list (ustr * json)).  (* keys in document order *)

(** [d.get(k)] on the dict [json.loads] builds: the last duplicate wins. *)
Definition dict_get (kvs : list (ustr * json)) (k : ustr) : option json :=
  fold_left (fun acc kv => if decide (kv.1 = k) then Some kv.2 else acc) kvs None.

Definition squote : ustr := [39%N].

(** [repr] of a JSON-decoded value (escaping inside quoted strings is not
    modelled; the result of a list or dict starts with [[] or [{]). *)
Fixpoint pyrepr (v : json) : ustr :=
  match v with
  | JNull => u "None"
  | JBool true => u "True"
  | JBool false => u "False"
  | JInt z => Z_to_dec z
  | JFloat r => r
  | JStr s => squote ++ s ++ squote
  | JArr l => u "[" ++ join (u ", ") (map pyrepr l) ++ u "]"
  | JObj kvs =>
      u "{" ++ join (u ", ")
        (map (fun kv => squote ++ kv.1 ++ squote ++ u ": " ++ pyrepr kv.2) kvs)
      ++ u "}"
  end.

(** [str(v)] *)
Definition pystr (v : json) : ustr :=
  match v with JStr s => s | _ => pyrepr v end.

(** ** [check_proxy]: validity test and text it writes *)

Definition yanchi : ustr := [24310%N; 36831%N].                (* 延迟 *)
Definition status_valid : ustr := [9989%N; 32%N; 26377%N; 25928%N].    (* ✅ 有效 *)
Definition status_invalid : ustr := [10060%N; 32%N; 26080%N; 25928%N]. (* ❌ 无效 *)

(** [f"[{status}] {ip_port}  延迟: {delay}ms\n"] (line 47) *)
Definition log_line (ip : ustr) (res : bool * json) : ustr :=
  u "[" ++ (if res.1 then status_valid else status_invalid) ++ u "] " ++ ip
  ++ u "  " ++ yanchi ++ u ": " ++ pystr res.2 ++ u "ms" ++ [10%N].

(** [f"{ip}#延迟:{delay}ms"] (line 103), [ip] being the whole input line *)
Definition entry (line : ustr) (delay : json) : ustr :=
  line ++ u "#" ++ yanchi ++ u ":" ++ pystr delay ++ u "ms".

(** What [requests.get(url, timeout=6)] followed by [resp.json()] gives:
    an exception from [get] (unreachable, timeout), an exception from
    [json()] (body is not JSON), or a decoded JSON value. *)
Inductive response :=
| NetError
| BadBody
| Body (data : json).

(** [(False, -1)] *)
Definition sentinel : bool * json := (false, JInt (-1)).

(** Lines 31-36 of [check_proxy]. [None] stands for an exception raised
    inside the [try] block. For a non-dict [data] the [isinstance] test
    short-circuits [valid] to [False], and [data.get("responseTime", -1)]
    then raises [AttributeError]. *)
Definition probe_outcome (r : response) : option (bool * json) :=
  match r with
  | NetError | BadBody => None
  | Body (JObj kvs) =>
      let valid :=
        match dict_get kvs (u "success") with Some (JBool true) => true | _ => false end
        && negb (bool_decide (pystr (default JNull (dict_get kvs (u "proxyIP"))) = u "-1")) in
      Some (valid, default (JInt (-1)) (dict_get kvs (u "responseTime")))
  | Body _ => None
  end.

(** ** [validate_country] as a state machine

    [validate_country] submits one [check_proxy] call per input line to a
    [ThreadPoolExecutor(max_workers=MAX_THREADS)] (FIFO work queue) and
    consumes the futures in [as_completed] order. The phases below are the
    points between the atomic actions of one such call. *)

Definition MAX_THREADS : nat := 5.

Inductive phase :=
| Queued                      (* submitted, waiting for a worker *)
| Taken                       (* picked by a worker, line 20 not yet run *)
| Passed                      (* stop flag was clear at line 20 *)
| Missed                      (* cache miss at line 23 *)
| Responded (r : response)    (* network call of line 28 made *)
| Stored (res : bool * json)  (* line 38 done, log write (41-47) pending *)
| Done (res : bool * json)    (* [check_proxy] returned [res] *)
| Consumed.                   (* main thread handled the future *)

Definition is_running (ph : phase) : bool :=
  match ph with
  | Taken | Passed | Missed | Responded _ | Stored _ => true
  | _ => false
  end.

Definition is_queued (ph : phase) : bool :=
  match ph with Queued => true | _ => false end.

Definition is_consumed (ph : phase) : bool :=
  match ph with Consumed => true | _ => false end.

Fixpoint countb (f : phase -> bool) (phs : list phase) : nat :=
  match phs with
  | [] => 0
  | ph :: phs' => (if f ph then 1 else 0) + countb f phs'
  end.

(** Number of busy workers. *)
Definition count_running (phs : list phase) : nat := countb is_running phs.

Fixpoint first_queued (phs : list phase) : option nat :=
  match phs with
  | [] => None
  | ph :: phs' => if is_queued ph then Some 0 else S <$> first_queued phs'
  end.

Record vstate := mkV {
  v_cache : gmap ustr (bool * json);  (* verified_cache (module global) *)
  v_stop : bool;                      (* stop_flag *)
  v_valid : list ustr;                (* valid_ips *)
  v_phase : list phase;               (* one per future, in ip_lines order *)
  v_probes : list ustr;               (* addresses sent to CHECK_API, in order *)
  v_log : list ustr                   (* lines appended to proxy_check_log.txt *)
}.

Inductive event :=
| EStart                       (* a free worker dequeues the next future *)
| ECheck (i : nat)             (* line 20 *)
| ELookup (i : nat)            (* lines 23-24 *)
| ERequest (i : nat) (r : response)  (* lines 26-29, answer [r] *)
| EStore (i : nat)             (* lines 31-38, or the except branch 50-54 *)
| ELog (i : nat)               (* lines 41-49 *)
| EConsume (i : nat).          (* lines 97-106 in the main thread *)

Definition finished (s : vstate) : bool := forallb is_consumed s.(v_phase).

Section Country.
Variable ip_lines : list ustr.
Variable max_per_country : Z.

Definition vinit (cache0 : gmap ustr (bool * json)) (log0 : list ustr) : vstate :=
  mkV cache0 false [] (replicate (length ip_lines) Queued) [] log0.

(** Lines 101-105, under [lock]: new [valid_ips] and stop flag. *)
Definition accept (line : ustr) (delay : json) (s : vstate) : list ustr * bool :=
  if (Z.of_nat (length s.(v_valid)) <? max_per_country)%Z then
    let vs := s.(v_valid) ++ [entry line delay] in
    (vs, if (max_per_country <=? Z.of_nat (length vs))%Z then true else s.(v_stop))
  else (s.(v_valid), s.(v_stop)).

Definition vstep (e : event) (s : vstate) : option vstate :=
  let '(mkV c stop vs phs probes lg) := s in
  match e with
  | EStart =>
      match first_queued phs with
      | Some i =>
          if (count_running phs <? MAX_THREADS)%nat
          then Some (mkV c stop vs (<[i:=Taken]> phs) probes lg) else None
      | None => None
      end
  | ECheck i =>
      match phs !! i with
      | Some Taken =>
          Some (mkV c stop vs (<[i:=if stop then Done sentinel else Passed]> phs) probes lg)
      | _ => None
      end
  | ELookup i =>
      match phs !! i, ip_lines !! i with
      | Some Passed, Some line =>
          let ph' := match c !! ip_port line with Some res => Done res | None => Missed end in
          Some (mkV c stop vs (<[i:=ph']> phs) probes lg)
      | _, _ => None
      end
  | ERequest i r =>
      match phs !! i, ip_lines !! i with
      | Some Missed, Some line =>
          Some (mkV c stop vs (<[i:=Responded r]> phs) (probes ++ [ip_port line]) lg)
      | _, _ => None
      end
  | EStore i =>
      match phs !! i, ip_lines !! i with
      | Some (Responded r), Some line =>
          match probe_outcome r with
          | Some res =>
              Some (mkV (<[ip_port line:=res]> c) stop vs (<[i:=Stored res]> phs) probes lg)
          | None =>
              Some (mkV (<[ip_port line:=sentinel]> c) stop vs (<[i:=Done sentinel]> phs) probes lg)
          end
      | _, _ => None
      end
  | ELog i =>
      match phs !! i, ip_lines !! i with
      | Some (Stored res), Some line =>
          let lg' := if stop then lg else lg ++ [log_line (ip_port line) res] in
          Some (mkV c stop vs (<[i:=Done res]> phs) probes lg')
      | _, _ => None
      end
  | EConsume i =>
      match phs !! i, ip_lines !! i with
      | Some (Done (valid, delay)), Some line =>
          let '(vs', stop') := if valid then accept line delay s else (vs, stop) in
          Some (mkV c stop' vs' (<[i:=Consumed]> phs) probes lg)
      | _, _ => None
      end
  end.

Fixpoint vrun (tr : list event) (s : vstate) : option vstate :=
  match tr with
  | [] => Some s
  | e :: tr' => match vstep e s with Some s' => vrun tr' s' | None => None end
  end.

End Country.

(** ** [filter_ips] *)

(** Lines 119-126: one raw line into [country_map] (a [defaultdict(list)]). *)
Definition add_line (m : gmap ustr (list ustr)) (raw : ustr) : gmap ustr (list ustr) :=
  let line := strip raw in
  if bool_decide (line = []) || negb (contains (u ":443#") line) then m
  else match regex_country line with
       | Some country => <[country := default [] (m !! country) ++ [line]]> m
       | None => m
       end.

(** Lines 116-126 *)
Definition country_map (input_data : ustr) : gmap ustr (list ustr) :=
  foldl add_line ∅ (split_on 10%N (strip input_data)).

(** [a <= b] for Python strings, i.e. [not (b < a)]. *)
Definition str_le (s t : ustr) : Prop := str_ltb t s = false.
#[global] Instance str_le_dec : RelDecision str_le :=
  fun s t => decide (str_ltb t s = false).

(** [sorted(country_map.keys())]; keys are distinct, so any correct sort
    gives the list Python's [sorted] gives. *)
Definition sorted_keys (m : gmap ustr (list ustr)) : list ustr :=
  merge_sort str_le (map fst (map_to_list m)).

(** The buckets in the order line 129 visits them. *)
Definition worklist (input_data : ustr) : list (ustr * list ustr) :=
  let m := country_map input_data in
  map (fun c => (c, default [] (m !! c))) (sorted_keys m).

(** Lines 128-131: the countries are validated one after the other; each
    [validate_country] is a complete run of the state machine, and the
    cache and log file carry over from one country to the next. *)
Inductive countries_run (max_per_country : Z) :
  gmap ustr (bool * json) -> list ustr -> list (ustr * list ustr) -> list ustr -> Prop :=
| cr_nil c lg : countries_run max_per_country c lg [] []
| cr_cons c lg country lines rest tr s out :
    vrun lines max_per_country tr (vinit lines c lg) = Some s ->
    finished s = true ->
    countries_run max_per_country s.(v_cache) s.(v_log) rest out ->
    countries_run max_per_country c lg ((country, lines) :: rest) (s.(v_valid) ++ out).

(** [result] of [filter_ips(input_data, max_per_country)], starting from
    cache [cache0] and log file [log0]. *)
Definition filter_ips_result (cache0 : gmap ustr (bool * json)) (log0 : list ustr)
    (input_data : ustr) (max_per_country : Z) (result : list ustr) : Prop :=
  countries_run max_per_country cache0 log0 (worklist input_data) result.

(** The returned text, line 133. *)
Definition filter_ips_output (result : list ustr) : ustr := join [10%N] result.

(** ** [__main__] (lines 136-154) *)

(** The line boundaries of [str.splitlines]. *)
Definition is_line_break (c : N) : bool :=
  ((10 <=? c) && (c <=? 13))%N || ((28 <=? c) && (c <=? 30))%N
  || (c =? 133)%N || (c =? 8232)%N || (c =? 8233)%N.

(** [s.splitlines()]; [cur] is the current line, reversed. *)
Fixpoint splitlines_acc (s cur : ustr) : list ustr :=
  match s with
  | [] => match cur with [] => [] | _ :: _ => [rev cur] end
  | c :: s' =>
      if is_line_break c then
        rev cur :: match s' with
                   | d :: s'' =>
                       if (c =? 13)%N && (d =? 10)%N then splitlines_acc s'' []
                       else splitlines_acc s' []
                   | [] => splitlines_acc s' []
                   end
      else splitlines_acc s' (c :: cur)
  end.

Definition splitlines (s : ustr) : list ustr := splitlines_acc s [].

(** Lines 147-154: [Some (text, n)] when [filtered_ips.txt] is written with
    [text] and the count [n] is printed; [None] when the script prints
    that no valid proxy was found and writes no file. *)
Definition main_report (output_data : ustr) : option (ustr * nat) :=
  if bool_decide (strip output_data = []) then None
  else Some (output_data, length (splitlines output_data)).

(** ** [validate_batch] (lines 58-84; no caller in the file)

    The futures run [check_proxy], which catches its own errors, so the
    [except] branch of lines 81-83 is not reached. *)

(** The loop of lines 74-77: the first line of the batch that starts
    with [ip]. *)
Fixpoint first_match (ip : ustr) (ip_batch : list ustr) : option ustr :=
  match ip_batch with
  | [] => None
  | line :: rest => if is_prefix ip line then Some line else first_match ip rest
  end.

(** Lines 68-80, one completed future per element of [completed], in
    [as_completed] order: its index in [ip_ports], the [(valid, delay)]
    it returned and whether [stop_flag] was set when line 79 ran. *)
Fixpoint batch_loop (ip_batch ip_ports : list ustr)
    (completed : list (nat * (bool * json) * bool)) : list ustr :=
  match completed with
  | [] => []
  | (i, (valid, delay), stopped) :: rest =>
      let found :=
        if valid then
          match ip_ports !! i with
          | Some ip => match first_match ip ip_batch with
                       | Some line => [entry line delay]
                       | None => []
                       end
          | None => []
          end
        else [] in
      found ++ (if stopped then [] else batch_loop ip_batch ip_ports rest)
  end.

(** Lines 58-84. [None]: [ThreadPoolExecutor(max_workers=0)] raises
    [ValueError] (line 66). *)
Definition validate_batch (ip_batch : list ustr)
    (completed : list (nat * (bool * json) * bool)) : option (list ustr) :=
  let ip_ports := map ip_port ip_batch in
  if (Nat.min MAX_THREADS (length ip_ports) =? 0)%nat then None
  else Some (batch_loop ip_batch ip_ports completed).

(** What [check_proxy] returns after its network call (lines 27-54). *)
Definition check_result (r : response) : bool * json :=
  default sentinel (probe_outcome r).

(** An answer without a boolean [success] indicator, or no answer. *)
Definition malformed (r : response) : bool :=
  match r with
  | Body (JObj kvs) =>
      match dict_get kvs (u "success") with Some (JBool _) => false | _ => true end
  | _ => true
  end.

(** ** Sample inputs *)

(** A well-formed positive answer of the probe API. *)
Definition ex_ok (ip : String.string) (t : Z) : response :=
  Body (JObj [(u "success", JBool true); (u "proxyIP", JStr (u ip));
              (u "responseTime", JInt t)]).

Definition ex_a : ustr := u "1.1.1.1:443#US".
Definition ex_b : ustr := u "2.2.2.2:443#US".
Definition ex_c : ustr := u "3.3.3.3:443#US".

(** Task [i] from the stop check to its result, with a network call
    answered by [r] (add [ELog i] when the answer is a JSON object). *)
Definition ex_probe (i : nat) (r : response) : list event :=
  [ECheck i; ELookup i; ERequest i r; EStore i].

(** The end-to-end run of the spec: three US lines, quota 2, the first and
    third address valid (latency 50 and 80), the second unreachable. *)
Definition ex_run3 : list event :=
  [EStart; EStart; EStart] ++ ex_probe 0 (ex_ok "1.1.1.1" 50) ++ [ELog 0]
  ++ ex_probe 1 NetError ++ ex_probe 2 (ex_ok "3.3.3.3" 80) ++ [ELog 2]
  ++ [EConsume 0; EConsume 1; EConsume 2].

(** The state a trace ends in ([s0] if the trace is not executable). *)
Definition final (lines : list ustr) (q : Z) (tr : list event) (s0 : vstate) : vstate :=
  default s0 (vrun lines q tr s0).

(** Two US lines, quota 1: task 0 fills the quota, then task 1 runs. *)
Definition ex_fill1 : list event :=
  [EStart; EStart] ++ ex_probe 0 (ex_ok "1.1.1.1" 50) ++ [ELog 0; EConsume 0].
Definition ex_after1 : list event := [ECheck 1; EConsume 1].

(** Two US lines, quota 1: task 0 alone fills the quota, task 1 is still queued. *)
Definition ex_fill_first : list event :=
  [EStart] ++ ex_probe 0 (ex_ok "1.1.1.1" 50) ++ [ELog 0; EConsume 0].

Definition ex_run_unreachable : list event := [EStart] ++ ex_probe 0 NetError ++ [EConsume 0].

(** Six US lines, quota 2. *)
Definition ex_six : list ustr :=
  [u "1.0.0.1:443#US"; u "1.0.0.2:443#US"; u "1.0.0.3:443#US";
   u "1.0.0.4:443#US"; u "1.0.0.5:443#US"; u "1.0.0.6:443#US"].

(** Five workers start, task 1 finishes, a worker starts task 5 while
    task 0 is still running. *)
Definition ex_slide : list event :=
  [EStart; EStart; EStart; EStart; EStart] ++ ex_probe 1 NetError ++ [EStart].

(** The same line twice: both tasks look the cache up before either
    stores its result. *)
Definition ex_dup_race : list event :=
  [EStart; EStart; ECheck 0; ECheck 1; ELookup 0; ELookup 1;
   ERequest 0 (ex_ok "1.1.1.1" 50); ERequest 1 (ex_ok "1.1.1.1" 50)].

(** A cache already holding a valid result for [2.2.2.2:443]. *)
Definition ex_cache_b : gmap ustr (bool * json) := {[u "2.2.2.2:443" := (true, JInt 50)]}.
(** A cache already holding a valid result for [1.1.1.1:443]. *)
Definition ex_cache_a : gmap ustr (bool * json) := {[u "1.1.1.1:443" := (true, JInt 50)]}.

(** A positive answer whose [proxyIP] is ["-1"]. *)
Definition ex_minus1 : json :=
  JObj [(u "success", JBool true); (u "proxyIP", JStr (u "-1")); (u "responseTime", JInt 20)].

(** Three countries given in the order US, NL, IN, quota 1. *)
Definition ex_input : ustr :=
  u "1.1.1.1:443#US" ++ [10%N] ++ u "2.2.2.2:443#NL" ++ [10%N] ++ u "3.3.3.3:443#IN".

Definition ex_one (ip : String.string) (t : Z) : list event :=
  [EStart] ++ ex_probe 0 (ex_ok ip t) ++ [ELog 0; EConsume 0].

Definition ex_s_IN : vstate :=
  final [u "3.3.3.3:443#IN"] 1 (ex_one "3.3.3.3" 30) (vinit [u "3.3.3.3:443#IN"] ∅ []).
Definition ex_s_NL : vstate :=
  final [u "2.2.2.2:443#NL"] 1 (ex_one "2.2.2.2" 20)
    (vinit [u "2.2.2.2:443#NL"] ex_s_IN.(v_cache) ex_s_IN.(v_log)).
Definition ex_s_US : vstate :=
  final [u "1.1.1.1:443#US"] 1 (ex_one "1.1.1.1" 10)
    (vinit [u "1.1.1.1:443#US"] ex_s_NL.(v_cache) ex_s_NL.(v_log)).

(** The worklist filter as the specification words it: an input line is
    kept in the bucket of [cc] when it contains [:443#] and ends with [#]
    and two uppercase letters spelling [cc]. *)
Definition ends_with_code (line cc : ustr) : bool :=
  match rev line with
  | b :: a :: h :: _ => (h =? hash_char)%N && is_upper a && is_upper b && bool_decide (cc = [a; b])
  | _ => false
  end.

Definition worklist_keep (cc line : ustr) : bool :=
  contains (u ":443#") line && ends_with_code line cc.

(** Each bucket holds exactly the kept input lines, in input order. *)
Definition worklist_filter_claim : Prop :=
  forall (input_data cc : ustr),
    default [] (country_map input_data !! cc) =
    List.filter (worklist_keep cc) (split_on 10%N input_data).

(** A list whose lines end in CR LF. *)
Definition ex_crlf : ustr :=
  u "1.1.1.1:443#US" ++ [13%N; 10%N] ++ u "2.2.2.2:443#NL".

Definition ex_result : list ustr :=
  ex_s_IN.(v_valid) ++ ex_s_NL.(v_valid) ++ ex_s_US.(v_valid) ++ [].

(** A cache holding an address of another country. *)
Definition ex_cache_other : gmap ustr (bool * json) := {[u "9.9.9.9:443" := (false, JInt (-1))]}.

(** A list without any port-443 line. *)
Definition ex_no443 : ustr := u "1.1.1.1:80#US" ++ [10%N] ++ u "  " ++ [10%N] ++ u "hello".

(** Two lines with the same address: a valid result for the second line
    is reported with the first line. *)
Definition ex_batch : list ustr := [u "1.1.1.1:443#US"; u "1.1.1.1:443#JP"].

(** * Properties *)

Lemma vrun_app lines q tr1 tr2 s :
  vrun lines q (tr1 ++ tr2) s =
  match vrun lines q tr1 s with Some s' => vrun lines q tr2 s' | None => None end.
Proof.
  revert s. induction tr1 as [|e tr1 IH]; intros s; simpl; [done|].
  destruct (vstep lines q e s); [apply IH|done].
Qed.

(** Invariants of single steps carry over to whole runs. *)
Lemma vrun_ind lines q (P : vstate -> Prop) :
  (forall e s s', P s -> vstep lines q e s = Some s' -> P s') ->
  forall tr s s', P s -> vrun lines q tr s = Some s' -> P s'.
Proof.
  intros Hstep tr. induction tr as [|e tr IH]; intros s s' HP Hrun; simpl in Hrun.
  - by simplify_eq.
  - destruct (vstep lines q e s) as [s1|] eqn:E; [|done].
    eapply IH; [eapply Hstep|]; eauto.
Qed.

(** Turn the quota comparisons of [accept] into arithmetic facts. *)
Ltac zbools :=
  repeat match goal with
  | H : (_ <? _)%Z = true |- _ => apply Z.ltb_lt in H
  | H : (_ <? _)%Z = false |- _ => apply Z.ltb_ge in H
  | H : (_ <=? _)%Z = true |- _ => apply Z.leb_le in H
  | H : (_ <=? _)%Z = false |- _ => apply Z.leb_gt in H
  end.

(** Unfold one step into its cases. *)
Ltac step_cases H :=
  unfold vstep in H; repeat (case_match; simplify_eq/=; try done).

(** [valid_ips] never grows past the quota (for a negative quota it stays empty). *)
Lemma valid_le_quota lines q e s s' :
  length s.(v_valid) <= Z.to_nat (Z.max 0 q) ->
  vstep lines q e s = Some s' ->
  length s'.(v_valid) <= Z.to_nat (Z.max 0 q).
Proof.
  intros Hle H. destruct s as [c stop vs phs probes lg]. simpl in Hle.
  step_cases H.
  all: unfold accept in *; simpl in *.
  all: repeat (case_match; simplify_eq/=); rewrite ?length_app; simpl in *; lia.
Qed.

Lemma valid_le_quota_run lines q tr s s' :
  length s.(v_valid) <= Z.to_nat (Z.max 0 q) ->
  vrun lines q tr s = Some s' ->
  length s'.(v_valid) <= Z.to_nat (Z.max 0 q).
Proof.
  apply (vrun_ind lines q (fun s => length s.(v_valid) <= Z.to_nat (Z.max 0 q))).
  intros e. apply valid_le_quota.
Qed.

(** Tasks past the stop check (line 20) that have not yet made their
    network call. *)
Definition is_inflight (ph : phase) : bool :=
  match ph with Passed | Missed => true | _ => false end.

Lemma countb_insert f (l : list phase) i x y :
  l !! i = Some x ->
  countb f (<[i:=y]> l) + (if f x then 1 else 0) = countb f l + (if f y then 1 else 0).
Proof.
  revert i. induction l as [|z l IH]; intros [|i] H; simpl in *; try done.
  - simplify_eq. lia.
  - specialize (IH i H). lia.
Qed.

Lemma first_queued_lookup phs i :
  first_queued phs = Some i -> phs !! i = Some Queued /\ forall j ph, j < i -> phs !! j = Some ph -> is_queued ph = false.
Proof.
  revert i. induction phs as [|ph phs IH]; intros i H; simpl in H; [done|].
  destruct (is_queued ph) eqn:Eq.
  - simplify_eq. destruct ph; try done. split; [done|]. intros; lia.
  - destruct (first_queued phs) as [i'|]; simpl in H; simplify_eq.
    destruct (IH i' eq_refl) as [H1 H2]. split; [done|].
    intros [|j] ph' Hj Hl; simpl in Hl; [by simplify_eq|]. apply (H2 j); [lia|done].
Qed.

(** The stop flag is set exactly when the quota has been filled. *)
Definition stop_inv (q : Z) (s : vstate) : Prop :=
  length s.(v_valid) <= Z.to_nat (Z.max 0 q) /\
  (s.(v_stop) = true -> Z.of_nat (length s.(v_valid)) = q).

Lemma stop_inv_step lines q e s s' :
  stop_inv q s -> vstep lines q e s = Some s' -> stop_inv q s'.
Proof.
  intros [Hle Hstop] H. split; [eapply valid_le_quota; eauto|].
  destruct s as [c stop vs phs probes lg]; simpl in *.
  step_cases H; unfold accept in *; simpl in *;
    repeat (case_match; simplify_eq/=); rewrite ?length_app in *; simpl in *; zbools;
    intros; try lia; auto.
  all: specialize (Hstop ltac:(assumption)); lia.
Qed.

Lemma stop_inv_run lines q tr s s' :
  stop_inv q s -> vrun lines q tr s = Some s' -> stop_inv q s'.
Proof. apply vrun_ind. intros e. apply stop_inv_step. Qed.

Lemma stop_inv_init lines q c lg : stop_inv q (vinit lines c lg).
Proof. split; simpl; [lia|done]. Qed.

(** Lines 101-105 set the flag exactly when an accepted entry brings
    [valid_ips] to the quota, which needs a positive quota. *)
Definition stop_set_inv (q : Z) (s : vstate) : Prop :=
  stop_inv q s /\
  (s.(v_stop) = true <-> (0 < q)%Z /\ (q <= Z.of_nat (length s.(v_valid)))%Z).

Lemma stop_set_inv_step lines q e s s' :
  stop_set_inv q s -> vstep lines q e s = Some s' -> stop_set_inv q s'.
Proof.
  intros [Hinv Hiff] H. split; [eapply stop_inv_step; eauto|].
  destruct Hinv as [Hle _].
  destruct s as [c stop vs phs probes lg]; simpl in *.
  step_cases H; unfold accept in *; simpl in *;
    repeat (case_match; simplify_eq/=); rewrite ?length_app in *; simpl in *; zbools;
    try done.
  - split; [intros _; lia|done].
  - rewrite Hiff. lia.
Qed.

Lemma stop_set_inv_init lines q c lg : stop_set_inv q (vinit lines c lg).
Proof.
  split; [apply stop_inv_init|]. simpl. split; [done|lia].
Qed.

(** After the signal: [valid_ips] frozen, stop flag kept, and every
    network call consumes one task that was already past the stop check. *)
Lemma after_stop_step lines q e s s' :
  stop_inv q s -> s.(v_stop) = true -> vstep lines q e s = Some s' ->
  s'.(v_stop) = true /\ s'.(v_valid) = s.(v_valid) /\
  exists extra, s'.(v_probes) = s.(v_probes) ++ extra /\
    length extra + countb is_inflight s'.(v_phase) <= countb is_inflight s.(v_phase).
Proof.
  intros [Hle Hq] Hs H. specialize (Hq Hs).
  destruct s as [c stop vs phs probes lg]; simpl in *; subst stop.
  step_cases H.
  all: try match goal with
       | Hf : first_queued ?l = Some ?i |- _ => apply first_queued_lookup in Hf as [Hf _]
       end.
  all: try match goal with
       | Hl : ?l !! ?i = Some ?x |- context [<[?i:=?y]> ?l] =>
           pose proof (countb_insert is_inflight l i x y Hl) as Hc; simpl in Hc
       end.
  all: try (split; [done|]; split; [done|]; exists []; split; [by rewrite app_nil_r|]; simpl; lia).
  - split; [done|]; split; [done|]. eexists; split; [reflexivity|]. simpl. lia.
  - unfold accept in *; simpl in *. repeat case_match; simplify_eq/=; zbools; try lia.
    split; [done|]; split; [done|]. exists []. split; [by rewrite app_nil_r|]. simpl. lia.
Qed.

Lemma after_stop_run lines q tr s s' :
  stop_inv q s -> s.(v_stop) = true -> vrun lines q tr s = Some s' ->
  s'.(v_stop) = true /\ s'.(v_valid) = s.(v_valid) /\
  exists extra, s'.(v_probes) = s.(v_probes) ++ extra /\
    length extra + countb is_inflight s'.(v_phase) <= countb is_inflight s.(v_phase).
Proof.
  revert s. induction tr as [|e tr IH]; intros s Hinv Hs Hrun; simpl in Hrun.
  - simplify_eq. split; [done|]; split; [done|].
    exists []. split; [by rewrite app_nil_r|]. simpl. lia.
  - destruct (vstep lines q e s) as [s1|] eqn:E; [|done].
    destruct (after_stop_step lines q e s s1 Hinv Hs E) as (Hs1 & Hv1 & extra1 & Hp1 & Hc1).
    destruct (IH s1 (stop_inv_step _ _ _ _ _ Hinv E) Hs1 Hrun)
      as (Hs2 & Hv2 & extra2 & Hp2 & Hc2).
    split; [done|]. split; [congruence|]. exists (extra1 ++ extra2). split.
    + by rewrite Hp2, Hp1, app_assoc.
    + rewrite length_app. lia.
Qed.

(** Phases reached only after the cache lookup of line 23. *)
Definition past_lookup (ph : phase) : bool :=
  match ph with Responded _ | Stored _ | Done _ | Consumed => true | _ => false end.

(** While the stop flag stays clear, every address that was looked up is
    either in the initial cache or has been sent to the probe API. *)
Definition probed_inv (lines : list ustr) (cache0 : gmap ustr (bool * json)) (s : vstate) : Prop :=
  s.(v_stop) = false /\
  (forall k, is_Some (s.(v_cache) !! k) -> is_Some (cache0 !! k) \/ k ∈ s.(v_probes)) /\
  (forall i line ph, lines !! i = Some line -> s.(v_phase) !! i = Some ph ->
     past_lookup ph = true -> is_Some (cache0 !! ip_port line) \/ ip_port line ∈ s.(v_probes)).

Lemma probed_inv_step lines q cache0 e s s' :
  (q <= 0)%Z -> probed_inv lines cache0 s -> vstep lines q e s = Some s' ->
  probed_inv lines cache0 s'.
Proof.
  intros Hq (Hs & Hc & Hp) H.
  destruct s as [c stop vs phs probes lg]; simpl in *; subst stop.
  step_cases H; unfold accept in *; simpl in *; repeat (case_match; simplify_eq/=); zbools;
    try lia.
  all: split; [done|]; split; [intros k Hk | intros jj line' ph Hl Hph Hpast].
  all: try (apply list_lookup_insert_Some in Hph as [(<- & <- & _)|(_ & Hph)]);
    simplify_eq/=; try done.
  all: try (rewrite lookup_insert in Hk; case_decide; subst).
  all: try (by eapply Hp).
  all: try (by eapply Hc).
  all: try (destruct (Hc k Hk); [by left|right; set_solver]).
  all: try (destruct (Hp jj line' ph Hl Hph Hpast); [by left|right; set_solver]).
  all: try (right; set_solver).
  all: try (eapply Hp; eauto; done).
  all: try (eapply Hc; eauto).
Qed.

Lemma phase_length_step lines q e s s' :
  vstep lines q e s = Some s' -> length s'.(v_phase) = length s.(v_phase).
Proof.
  intros H. destruct s as [c stop vs phs probes lg]; simpl.
  step_cases H; unfold accept in *; repeat (case_match; simplify_eq/=);
    by rewrite length_insert.
Qed.

Lemma phase_length_run lines q tr s s' :
  vrun lines q tr s = Some s' -> length s'.(v_phase) = length s.(v_phase).
Proof.
  revert s. induction tr as [|e tr IH]; intros s H; simpl in H; [by simplify_eq|].
  destruct (vstep lines q e s) as [s1|] eqn:E; [|done].
  rewrite (IH s1 H). by eapply phase_length_step.
Qed.

Lemma finished_lookup s i :
  finished s = true -> i < length s.(v_phase) -> s.(v_phase) !! i = Some Consumed.
Proof.
  unfold finished. generalize (v_phase s) as phs. intros phs.
  revert i. induction phs as [|ph phs IH]; intros [|i] Hf Hi; simpl in *; try lia;
    apply andb_true_iff in Hf as [Hc Hf].
  - by destruct ph.
  - apply IH; [done|lia].
Qed.

(** C1: at every point of every run of [validate_country] with a quota
    [max_per_country >= 0] -- in particular for the list it returns --
    [0 <= len(valid_ips) <= max_per_country]. *)
Theorem validate_country_within_quota (ip_lines : list ustr) (max_per_country : Z)
    (cache0 : gmap ustr (bool * json)) (log0 : list ustr) (tr : list event) (s : vstate) :
  (0 <= max_per_country)%Z ->
  vrun ip_lines max_per_country tr (vinit ip_lines cache0 log0) = Some s ->
  (0 <= Z.of_nat (length s.(v_valid)) <= max_per_country)%Z.
Proof.
  intros Hq Hrun.
  pose proof (valid_le_quota_run ip_lines max_per_country tr (vinit ip_lines cache0 log0) s ltac:(simpl; lia) Hrun).
  lia.
Qed.

(** The claim C2 as stated: quota 0 gives no output and no probe call, for
    every non-empty candidate list. *)
Definition quota_zero_no_probes_claim : Prop :=
  forall ip_lines cache0 log0 tr s,
    ip_lines <> [] ->
    vrun ip_lines 0 tr (vinit ip_lines cache0 log0) = Some s -> finished s = true ->
    s.(v_valid) = [] /\ s.(v_probes) = [].

(** C2 (counterexample): with quota 0 and the single line
    [1.1.1.1:443#US], the completed run where the address is unreachable
    sends one probe for [1.1.1.1:443]. *)
Lemma quota_zero_no_probes_counterexample : ~ quota_zero_no_probes_claim.
Proof.
  intros H.
  destruct (H [ex_a] ∅ [] ([EStart] ++ ex_probe 0 NetError ++ [EConsume 0])
    (mkV {[u "1.1.1.1:443" := sentinel]} false [] [Consumed] [u "1.1.1.1:443"] []))
    as [_ Hp]; [done|vm_compute; reflexivity|reflexivity|].
  discriminate Hp.
Qed.

(** C2 (amended): with quota 0 a completed run of [validate_country]
    returns no entry and never sets the stop flag, so every candidate
    whose address is not already cached is sent to the probe API. *)
Theorem quota_zero_probes_uncached (ip_lines : list ustr) (cache0 : gmap ustr (bool * json))
    (log0 : list ustr) (tr : list event) (s : vstate) :
  vrun ip_lines 0 tr (vinit ip_lines cache0 log0) = Some s -> finished s = true ->
  s.(v_valid) = [] /\ s.(v_stop) = false /\
  forall line, line ∈ ip_lines -> cache0 !! ip_port line = None -> ip_port line ∈ s.(v_probes).
Proof.
  intros Hrun Hfin.
  pose proof (valid_le_quota_run ip_lines 0 tr (vinit ip_lines cache0 log0) s ltac:(simpl; lia) Hrun) as Hlen.
  assert (Hinv : probed_inv ip_lines cache0 s).
  { refine (vrun_ind ip_lines 0 (probed_inv ip_lines cache0) _ tr _ s _ Hrun).
    - intros e s1 s2. apply probed_inv_step. lia.
    - split; [done|]. split.
      + intros k Hk. by left.
      + intros i line ph _ Hph. simpl in Hph.
        apply lookup_replicate_1 in Hph as [-> _]. done. }
  destruct Hinv as (Hs & _ & Hp).
  split; [destruct (v_valid s); simpl in Hlen; [done|lia]|].
  split; [done|].
  intros line Hin Hnone.
  apply list_elem_of_lookup in Hin as [i Hi].
  pose proof (phase_length_run _ _ _ _ _ Hrun) as Hl. simpl in Hl.
  rewrite length_replicate in Hl.
  assert (Hc : v_phase s !! i = Some Consumed).
  { apply finished_lookup; [done|]. rewrite Hl. by eapply lookup_lt_Some. }
  destruct (Hp i line Consumed Hi Hc eq_refl) as [Hs'|]; [|done].
  rewrite Hnone in Hs'. by destruct Hs'.
Qed.

(** The claim C4 as stated, for a quota [q >= 0]: once [valid_ips] holds
    [q] entries the stop flag is set, and from then on the only probe calls
    are those of tasks already past the stop check of line 20. *)
Definition early_stop_claim : Prop :=
  forall ip_lines q cache0 log0 tr s,
    (0 <= q)%Z ->
    vrun ip_lines q tr (vinit ip_lines cache0 log0) = Some s ->
    (q <= Z.of_nat (length s.(v_valid)))%Z ->
    s.(v_stop) = true /\
    forall tr' s', vrun ip_lines q tr' s = Some s' ->
      exists extra, s'.(v_probes) = s.(v_probes) ++ extra /\
        length extra <= countb is_inflight s.(v_phase).

(** C4 (counterexample): with quota 0 the quota is met before anything
    runs, yet the flag is never set; the one candidate then passes line 20
    and is sent to the probe API. *)
Lemma early_stop_claim_counterexample : ~ early_stop_claim.
Proof.
  intros H.
  destruct (H [ex_a] 0%Z ∅ [] [] (vinit [ex_a] ∅ []) ltac:(lia) eq_refl ltac:(simpl; lia))
    as [_ Hp].
  assert (Hr : vrun [ex_a] 0 ex_run_unreachable (vinit [ex_a] ∅ []) =
                Some (final [ex_a] 0 ex_run_unreachable (vinit [ex_a] ∅ [])))
    by (vm_compute; reflexivity).
  destruct (Hp _ _ Hr) as (extra & He & Hl).
  vm_compute in He. destruct extra as [|x [|y extra]]; try discriminate He.
  vm_compute in Hl. lia.
Qed.

(** C4 (amended): the stop flag is set exactly when an accepted result has
    brought [valid_ips] to [max_per_country] entries, which can only happen
    for a positive quota. Once that is the case, for the rest of the run
    [valid_ips] stays at exactly [max_per_country] entries, so a result
    that completes afterwards is never appended, and the only probe calls
    still made are those of tasks that had already passed the stop check of
    line 20: every candidate that reaches line 20 afterwards makes none. *)
Theorem early_stop_after_quota (ip_lines : list ustr) (max_per_country : Z)
    (cache0 : gmap ustr (bool * json)) (log0 : list ustr) (tr : list event) (s : vstate) :
  vrun ip_lines max_per_country tr (vinit ip_lines cache0 log0) = Some s ->
  (s.(v_stop) = true <->
     (0 < max_per_country)%Z /\ (max_per_country <= Z.of_nat (length s.(v_valid)))%Z) /\
  ((0 < max_per_country)%Z -> (max_per_country <= Z.of_nat (length s.(v_valid)))%Z ->
   forall tr' s', vrun ip_lines max_per_country tr' s = Some s' ->
     s'.(v_stop) = true /\ s'.(v_valid) = s.(v_valid) /\
     Z.of_nat (length s'.(v_valid)) = max_per_country /\
     exists extra, s'.(v_probes) = s.(v_probes) ++ extra /\
       length extra <= countb is_inflight s.(v_phase)).
Proof.
  intros Hrun.
  destruct (vrun_ind ip_lines max_per_country (stop_set_inv max_per_country)
              (fun e => stop_set_inv_step ip_lines max_per_country e) tr _ s
              (stop_set_inv_init ip_lines max_per_country cache0 log0) Hrun)
    as [Hinv Hiff].
  split; [done|]. intros Hq Hle tr' s' Hrun'.
  assert (Hs : s.(v_stop) = true) by (apply Hiff; lia).
  destruct (after_stop_run _ _ _ _ _ Hinv Hs Hrun') as (Hs' & Hv & extra & Hp & Hc).
  split; [done|]. split; [done|]. split; [rewrite Hv; by apply Hinv|].
  exists extra. split; [done|]. lia.
Qed.

(** ** Python string order *)

Lemma str_ltb_irrefl s : str_ltb s s = false.
Proof.
  induction s as [|a s IH]; simpl; [done|].
  rewrite N.ltb_irrefl. done.
Qed.

Lemma str_ltb_asym s t : str_ltb s t = true -> str_ltb t s = false.
Proof.
  revert t. induction s as [|a s IH]; intros [|b t] H; simpl in *; try done.
  destruct (N.ltb_spec a b), (N.ltb_spec b a); try done; try lia.
  apply IH. done.
Qed.

Lemma str_ltb_total s t : s <> t -> str_ltb s t = true \/ str_ltb t s = true.
Proof.
  revert t. induction s as [|a s IH]; intros [|b t] H; simpl; auto; try done.
  destruct (N.ltb_spec a b), (N.ltb_spec b a); auto; try lia.
  assert (a = b) as -> by lia. apply IH. congruence.
Qed.

Lemma str_ltb_trans s t w : str_ltb s t = true -> str_ltb t w = true -> str_ltb s w = true.
Proof.
  revert t w. induction s as [|a s IH]; intros [|b t] [|c w] H1 H2; simpl in *; try done.
  destruct (N.ltb_spec a b), (N.ltb_spec b a); try done;
  destruct (N.ltb_spec b c), (N.ltb_spec c b); try done;
  destruct (N.ltb_spec a c), (N.ltb_spec c a); try done; try lia.
  eapply IH; eauto.
Qed.

#[global] Instance str_le_total : Total str_le.
Proof.
  intros s t. unfold str_le. destruct (str_ltb t s) eqn:E; [|by left].
  right. by apply str_ltb_asym.
Qed.

#[global] Instance str_le_trans : Transitive str_le.
Proof.
  intros s t w H1 H2. unfold str_le in *.
  destruct (str_ltb w s) eqn:E; [|done].
  destruct (decide (s = t)) as [->|Hne]; [congruence|].
  destruct (str_ltb_total s t Hne) as [Hst|Hts]; [|congruence].
  rewrite (str_ltb_trans w s t E Hst) in H2. done.
Qed.

Lemma StronglySorted_strict (l : list ustr) :
  StronglySorted str_le l -> NoDup l -> StronglySorted (fun a b => str_ltb a b = true) l.
Proof.
  induction 1 as [|x l Hs IH Hall]; intros Hnd; constructor.
  - apply IH. by apply NoDup_cons in Hnd as [_ ?].
  - apply NoDup_cons in Hnd as [Hx _].
    apply Forall_forall. intros y Hy. rewrite Forall_forall in Hall.
    specialize (Hall y Hy). unfold str_le in Hall.
    assert (x <> y) as Hne by (intros ->; apply Hx; by apply list_elem_of_In).
    destruct (str_ltb_total x y Hne); congruence.
Qed.

Lemma sorted_keys_strict (m : gmap ustr (list ustr)) :
  StronglySorted (fun a b => str_ltb a b = true) (sorted_keys m).
Proof.
  unfold sorted_keys. apply StronglySorted_strict.
  - apply StronglySorted_merge_sort; [apply str_le_trans|apply str_le_total].
  - rewrite (merge_sort_Permutation str_le). apply NoDup_fst_map_to_list.
Qed.

(** Every bucket holds only lines whose trailing code is its key. *)
Lemma add_line_country m raw :
  (forall c ls, m !! c = Some ls -> forall l, l ∈ ls -> regex_country l = Some c) ->
  forall c ls, add_line m raw !! c = Some ls -> forall l, l ∈ ls -> regex_country l = Some c.
Proof.
  intros Hm c ls. unfold add_line.
  destruct (_ || _); [apply Hm|].
  destruct (regex_country (strip raw)) as [c'|] eqn:Ec; [|apply Hm].
  rewrite lookup_insert. case_decide as Heq; [|apply Hm].
  subst c'. intros Hls l Hl. simplify_eq.
  apply elem_of_app in Hl as [Hl|Hl].
  - destruct (m !! c) as [ls'|] eqn:E; simpl in Hl; [by eapply Hm|set_solver].
  - apply list_elem_of_singleton in Hl. by subst.
Qed.

Lemma foldl_add_line_country (l : list ustr) (m : gmap ustr (list ustr)) :
  (forall c ls, m !! c = Some ls -> forall x, x ∈ ls -> regex_country x = Some c) ->
  forall c ls, foldl add_line m l !! c = Some ls -> forall x, x ∈ ls -> regex_country x = Some c.
Proof.
  revert m. induction l as [|raw l IH]; intros m Hm; simpl; [done|].
  apply IH. by apply add_line_country.
Qed.

Lemma country_map_country input_data c ls :
  country_map input_data !! c = Some ls -> forall l, l ∈ ls -> regex_country l = Some c.
Proof.
  apply foldl_add_line_country. intros c' ls' H. by rewrite lookup_empty in H.
Qed.

(** ** The worklist filter *)

Lemma lstrip_head (s : ustr) c t : lstrip s = c :: t -> is_space c = false.
Proof.
  induction s as [|x s IH]; simpl; [done|].
  destruct (is_space x) eqn:E; [apply IH|]. intros [= -> ->]. done.
Qed.

Lemma strip_last (raw : ustr) c t : rev (strip raw) = c :: t -> is_space c = false.
Proof.
  unfold strip, rstrip. rewrite rev_involutive. apply lstrip_head.
Qed.

(** On a line with no trailing whitespace the regular expression of line
    123 matches exactly when the line ends with [#] and two capitals. *)
Lemma regex_country_ends (line cc : ustr) :
  (forall c t, rev line = c :: t -> is_space c = false) ->
  bool_decide (regex_country line = Some cc) = ends_with_code line cc.
Proof.
  intros Hlast. unfold regex_country, ends_with_code.
  destruct (rev line) as [|b [|a [|h t]]] eqn:E; try done.
  destruct ((h =? hash_char)%N && is_upper a && is_upper b) eqn:Hc; simpl.
  - apply bool_decide_ext. split; [intros [= <-]|intros ->]; done.
  - assert (Hb : (b =? 10)%N = false).
    { specialize (Hlast b _ eq_refl). apply N.eqb_neq. intros ->. done. }
    destruct t as [|h' t]; [done|]. rewrite Hb. simpl. done.
Qed.

Lemma add_line_bucket (m : gmap ustr (list ustr)) (raw cc : ustr) :
  default [] (add_line m raw !! cc) =
  default [] (m !! cc) ++ List.filter (worklist_keep cc) [strip raw].
Proof.
  unfold add_line, worklist_keep. simpl.
  destruct (bool_decide (strip raw = [])) eqn:Hemp; simpl.
  - apply bool_decide_eq_true in Hemp. rewrite Hemp. simpl. by rewrite app_nil_r.
  - destruct (contains (u ":443#") (strip raw)) eqn:Hcon; simpl; [|by rewrite app_nil_r].
    rewrite <- (regex_country_ends (strip raw) cc) by apply strip_last.
    destruct (regex_country (strip raw)) as [c'|] eqn:Er.
    + rewrite lookup_insert. case_decide as Heq.
      * subst c'. rewrite bool_decide_eq_true_2 by done. done.
      * rewrite bool_decide_eq_false_2 by congruence. simpl. by rewrite app_nil_r.
    + simpl. by rewrite app_nil_r.
Qed.

Lemma foldl_add_line_bucket (l : list ustr) (m : gmap ustr (list ustr)) (cc : ustr) :
  default [] (foldl add_line m l !! cc) =
  default [] (m !! cc) ++ List.filter (worklist_keep cc) (map strip l).
Proof.
  revert m. induction l as [|raw l IH]; intros m; simpl.
  - by rewrite app_nil_r.
  - rewrite IH, add_line_bucket. simpl.
    destruct (worklist_keep cc (strip raw)); simpl;
      [by rewrite <- app_assoc|by rewrite app_nil_r].
Qed.

(** ** Grouping of the output *)

(** Every entry of [valid_ips] is one of the country's lines with a latency. *)
Definition entries_inv (lines : list ustr) (s : vstate) : Prop :=
  forall e, e ∈ s.(v_valid) -> exists line d, line ∈ lines /\ e = entry line d.

Lemma entries_inv_step lines q e s s' :
  entries_inv lines s -> vstep lines q e s = Some s' -> entries_inv lines s'.
Proof.
  intros Hinv H. destruct s as [c stop vs phs probes lg]; unfold entries_inv in *; simpl in *.
  step_cases H; unfold accept in *; simpl in *; repeat (case_match; simplify_eq/=); try done.
  intros e' He. apply elem_of_app in He as [He|He]; [by apply Hinv|].
  apply list_elem_of_singleton in He as ->.
  eexists _, _. split; [eapply list_elem_of_lookup_2; eauto|reflexivity].
Qed.

Lemma countries_run_groups q c lg wl out :
  countries_run q c lg wl out ->
  exists outs, out = concat outs /\
    Forall2 (fun cl o => forall e, e ∈ o -> exists line d, line ∈ cl.2 /\ e = entry line d)
      wl outs.
Proof.
  induction 1 as [c lg|c lg country lines rest tr s out Hrun Hfin Hrest IH].
  - exists []. split; [done|constructor].
  - destruct IH as (outs & -> & Hf). exists (s.(v_valid) :: outs). split; [done|].
    constructor; [|done]. simpl.
    refine (vrun_ind lines q (entries_inv lines) _ tr _ s _ Hrun).
    + intros e. apply entries_inv_step.
    + intros e He. simpl in He. by apply not_elem_of_nil in He.
Qed.

Lemma Forall_Forall2_and {A B} (Q : A -> Prop) (P : A -> B -> Prop) l k :
  Forall Q l -> Forall2 P l k -> Forall2 (fun x y => Q x /\ P x y) l k.
Proof.
  intros HQ HP. induction HP as [|x y l k Hxy HP IH]; constructor.
  - split; [by inversion HQ|done].
  - apply IH. by inversion HQ.
Qed.

Lemma worklist_countries input_data :
  Forall (fun cl => forall line, line ∈ cl.2 -> regex_country line = Some cl.1)
    (worklist input_data).
Proof.
  unfold worklist. apply Forall_forall. intros [c ls] Hin line Hl. simpl in *.
  apply list_elem_of_fmap in Hin as (c' & [= <- ->] & _).
  destruct (country_map input_data !! c) as [ls'|] eqn:E; simpl in Hl.
  - by eapply country_map_country.
  - by apply not_elem_of_nil in Hl.
Qed.

(** C7: whatever the order of the input lines and whatever the probes
    answer, the result of [filter_ips] is the concatenation of one group
    per country, the countries in strictly ascending order of their codes
    (Python string order), and every entry of a group is one of that
    country's lines (ending in [#] and the code) with its latency. *)
Theorem filter_ips_sorted_groups (cache0 : gmap ustr (bool * json)) (log0 : list ustr)
    (input_data : ustr) (max_per_country : Z) (result : list ustr) :
  filter_ips_result cache0 log0 input_data max_per_country result ->
  StronglySorted (fun a b => str_ltb a b = true) (map fst (worklist input_data)) /\
  exists outs, result = concat outs /\
    Forall2 (fun cl out => forall e, e ∈ out ->
               exists line d, line ∈ cl.2 /\ regex_country line = Some cl.1 /\ e = entry line d)
      (worklist input_data) outs.
Proof.
  intros Hrun. split.
  - unfold worklist. rewrite map_map. simpl. rewrite map_id. apply sorted_keys_strict.
  - destruct (countries_run_groups _ _ _ _ _ Hrun) as (outs & -> & Hf).
    exists outs. split; [done|].
    eapply Forall2_impl; [apply (Forall_Forall2_and _ _ _ _ (worklist_countries input_data) Hf)|].
    intros cl o [Hc Ho] e He. destruct (Ho e He) as (line & d & Hl & ->).
    exists line, d. auto.
Qed.

(** C8 (as worded): the spec's filter over the raw input lines is not what
    lines 119-126 compute. With CR LF line ends, the raw line
    [1.1.1.1:443#US\r] does not end with [#US], yet the worklist keeps
    [1.1.1.1:443#US]. *)
Lemma worklist_filter_claim_counterexample : ~ worklist_filter_claim.
Proof.
  intros H. specialize (H ex_crlf (u "US")). vm_compute in H. discriminate H.
Qed.

(** C8 (amended): every line is first stripped of surrounding whitespace.
    The bucket of [cc] is exactly the list of stripped input lines, in
    input order, that contain [:443#] and end with [#] followed by the two
    uppercase letters of [cc]. Every other line (empty, without [:443#], or
    without such a code) is dropped without an error and reaches no
    bucket, hence no [validate_country]. *)
Theorem worklist_lines (input_data cc : ustr) :
  default [] (country_map input_data !! cc) =
  List.filter (worklist_keep cc) (map strip (split_on 10%N (strip input_data))).
Proof.
  unfold country_map. rewrite foldl_add_line_bucket. by rewrite lookup_empty.
Qed.

(** ** Witnesses *)

Lemma validate_country_within_quota_witness :
  let s := final [ex_a; ex_b; ex_c] 2 ex_run3 (vinit [ex_a; ex_b; ex_c] ∅ []) in
  (0 <= 2)%Z /\
  vrun [ex_a; ex_b; ex_c] 2 ex_run3 (vinit [ex_a; ex_b; ex_c] ∅ []) = Some s /\
  (0 <= Z.of_nat (length s.(v_valid)) <= 2)%Z.
Proof.
  intros s. split; [lia|]. split; [vm_compute; reflexivity|].
  apply (validate_country_within_quota [ex_a; ex_b; ex_c] 2 ∅ [] ex_run3 s);
    [lia|vm_compute; reflexivity].
Defined.

Lemma quota_zero_probes_uncached_witness :
  let s := final [ex_a] 0 ex_run_unreachable (vinit [ex_a] ∅ []) in
  vrun [ex_a] 0 ex_run_unreachable (vinit [ex_a] ∅ []) = Some s /\ finished s = true /\
  s.(v_valid) = [] /\ s.(v_stop) = false /\
  forall line, line ∈ [ex_a] -> (∅ : gmap ustr (bool * json)) !! ip_port line = None ->
    ip_port line ∈ s.(v_probes).
Proof.
  intros s. split; [vm_compute; reflexivity|]. split; [vm_compute; reflexivity|].
  apply (quota_zero_probes_uncached [ex_a] ∅ [] ex_run_unreachable s);
    vm_compute; reflexivity.
Defined.

Lemma early_stop_after_quota_witness :
  let s := final [ex_a; ex_b] 1 ex_fill1 (vinit [ex_a; ex_b] ∅ []) in
  let s' := final [ex_a; ex_b] 1 ex_after1 s in
  vrun [ex_a; ex_b] 1 ex_fill1 (vinit [ex_a; ex_b] ∅ []) = Some s /\
  (0 < 1)%Z /\ (1 <= Z.of_nat (length s.(v_valid)))%Z /\
  vrun [ex_a; ex_b] 1 ex_after1 s = Some s' /\
  s'.(v_stop) = true /\ s'.(v_valid) = s.(v_valid) /\ Z.of_nat (length s'.(v_valid)) = 1%Z /\
  exists extra, s'.(v_probes) = s.(v_probes) ++ extra /\
    length extra <= countb is_inflight s.(v_phase).
Proof.
  intros s s'.
  assert (Hrun : vrun [ex_a; ex_b] 1 ex_fill1 (vinit [ex_a; ex_b] ∅ []) = Some s)
    by (vm_compute; reflexivity).
  assert (Hle : (1 <= Z.of_nat (length s.(v_valid)))%Z) by (vm_compute; congruence).
  assert (Hrun' : vrun [ex_a; ex_b] 1 ex_after1 s = Some s') by (vm_compute; reflexivity).
  split; [exact Hrun|]. split; [lia|]. split; [exact Hle|]. split; [exact Hrun'|].
  exact (proj2 (early_stop_after_quota [ex_a; ex_b] 1 ∅ [] ex_fill1 s Hrun)
           ltac:(lia) Hle ex_after1 s' Hrun').
Defined.

(** ** Worker pool *)

(** Workers take futures in submission order, at most [MAX_THREADS] at a time. *)
Definition pool_inv (s : vstate) : Prop :=
  count_running s.(v_phase) <= MAX_THREADS /\
  forall i j phi phj, i < j -> s.(v_phase) !! j = Some phj -> is_queued phj = false ->
    s.(v_phase) !! i = Some phi -> is_queued phi = false.

Lemma pool_inv_step lines q e s s' : pool_inv s -> vstep lines q e s = Some s' -> pool_inv s'.
Proof.
  intros [Hrun Hfifo] H. unfold count_running in *.
  destruct s as [c stop vs phs probes lg]; simpl in *.
  step_cases H; unfold accept in *; simpl in *; repeat (case_match; simplify_eq/=).
  all: try match goal with
       | Hf : first_queued ?l = Some ?i |- _ => apply first_queued_lookup in Hf as [Hf Hbefore]
       end.
  all: match goal with
       | Hl : ?l !! ?i = Some ?x |- context [<[?i:=?y]> ?l] =>
           pose proof (countb_insert is_running l i x y Hl) as Hc; simpl in Hc
       end.
  all: unfold pool_inv, count_running in *; simpl.
  all: split; [try match goal with Hb : (_ <? _) = true |- _ => apply Nat.ltb_lt in Hb end;
               unfold MAX_THREADS in *; lia|].
  all: intros i' j' phi phj Hij Hj Hqj Hi.
  all: apply list_lookup_insert_Some in Hj as [(<- & <- & _)|(_ & Hj)];
       apply list_lookup_insert_Some in Hi as [(<- & <- & _)|(_ & Hi)];
       simplify_eq/=; try done; try lia.
  all: try (by eapply Hbefore).
  all: try (by eapply Hfifo).
  all: try (rewrite Hf in Hi; simplify_eq; eapply Hfifo; eauto; done).
  all: try (eapply Hfifo; [exact Hij|exact Hj|done|exact Hi]).
  all: try (match goal with Hk : ?l !! ?k = Some _ |- _ =>
              eapply (Hfifo _ k); [exact Hij| exact Hk| done | exact Hi] end).
Qed.

(** Whatever [valid_ips] and the stop flag hold, a free worker takes the
    first queued future; with the flag set, that task returns the sentinel
    at line 20 without touching the probes or [valid_ips]. *)
Lemma start_queued_step lines q s i :
  first_queued s.(v_phase) = Some i -> count_running s.(v_phase) < MAX_THREADS ->
  exists s1, vstep lines q EStart s = Some s1 /\ s1.(v_phase) !! i = Some Taken /\
    (s.(v_stop) = true ->
     exists s2, vstep lines q (ECheck i) s1 = Some s2 /\
       s2.(v_phase) !! i = Some (Done sentinel) /\
       s2.(v_probes) = s.(v_probes) /\ s2.(v_valid) = s.(v_valid)).
Proof.
  intros Hf Hc. destruct s as [c stop vs phs probes lg]; simpl in *.
  pose proof (first_queued_lookup _ _ Hf) as [Hi _].
  assert (Hlt : i < length phs) by (eapply lookup_lt_Some; eauto).
  apply Nat.ltb_lt in Hc.
  exists (mkV c stop vs (<[i:=Taken]> phs) probes lg).
  split; [simpl; rewrite Hf, Hc; reflexivity|]. simpl.
  split; [by rewrite list_lookup_insert_eq|].
  intros ->. exists (mkV c true vs (<[i:=Done sentinel]> (<[i:=Taken]> phs)) probes lg).
  split; [simpl; by rewrite list_lookup_insert_eq|]. simpl.
  rewrite list_lookup_insert_eq; [done|]. by rewrite length_insert.
Qed.

(** The claim C3 as stated, for the pool width [W = MAX_THREADS]: a
    candidate of batch [k] (indices [k*W .. k*W+W-1]) is started only when
    no candidate of an earlier batch is still running. *)
Definition batch_claim : Prop :=
  forall ip_lines q cache0 log0 tr s i j phi phj,
    vrun ip_lines q tr (vinit ip_lines cache0 log0) = Some s ->
    s.(v_phase) !! j = Some phj -> is_queued phj = false ->
    i < MAX_THREADS * (j / MAX_THREADS) ->
    s.(v_phase) !! i = Some phi -> is_running phi = false.

(** C3 (counterexample): six candidates; after task 1 finishes, task 5
    (second batch) is started while task 0 (first batch) is still running. *)
Lemma batch_claim_counterexample : ~ batch_claim.
Proof.
  intros H.
  specialize (H ex_six 2%Z ∅ [] ex_slide (final ex_six 2 ex_slide (vinit ex_six ∅ []))
                0 5 Taken Taken).
  assert (is_running Taken = false) as Hc.
  { apply H; [vm_compute; reflexivity|vm_compute; reflexivity|reflexivity|
              vm_compute; lia|vm_compute; reflexivity]. }
  discriminate Hc.
Qed.

(** C3 (amended): [validate_country] does not work in batches: all the
    candidates of a country go to one pool of [MAX_THREADS] = 5 workers,
    which start them in input order with at most 5 checks running at any
    time. A free worker starts the next queued candidate whatever
    [valid_ips] holds, so candidates are still started after the quota is
    met; once the stop flag is set, such a candidate returns at the stop
    check of line 20 without a probe call. *)
Theorem validate_country_pool (ip_lines : list ustr) (max_per_country : Z)
    (cache0 : gmap ustr (bool * json)) (log0 : list ustr) (tr : list event) (s : vstate) :
  vrun ip_lines max_per_country tr (vinit ip_lines cache0 log0) = Some s ->
  (count_running s.(v_phase) <= MAX_THREADS /\
   forall i j phi phj, i < j -> s.(v_phase) !! j = Some phj -> is_queued phj = false ->
     s.(v_phase) !! i = Some phi -> is_queued phi = false) /\
  (forall i, first_queued s.(v_phase) = Some i -> count_running s.(v_phase) < MAX_THREADS ->
   exists s1, vstep ip_lines max_per_country EStart s = Some s1 /\
     s1.(v_phase) !! i = Some Taken /\
     (s.(v_stop) = true ->
      exists s2, vstep ip_lines max_per_country (ECheck i) s1 = Some s2 /\
        s2.(v_phase) !! i = Some (Done sentinel) /\
        s2.(v_probes) = s.(v_probes) /\ s2.(v_valid) = s.(v_valid))).
Proof.
  intros Hrun. split; [|intros i; apply start_queued_step]. refine (vrun_ind _ _ pool_inv _ tr _ s _ Hrun).
  - intros e s1 s2. apply pool_inv_step.
  - split.
    + unfold count_running. simpl. generalize (length ip_lines).
      intros n. induction n; simpl; unfold MAX_THREADS in *; lia.
    + intros i j phi phj _ Hj Hqj. simpl in Hj.
      apply lookup_replicate_1 in Hj as [-> _]. done.
Qed.

(** ** The probe client *)

(** After the network call the worker always reaches [Done]: the result
    [check_result r] is stored in the cache, with one optional log step. *)
Lemma request_store lines q s i line r :
  lines !! i = Some line -> s.(v_phase) !! i = Some Missed ->
  exists s', vrun lines q [ERequest i r; EStore i] s = Some s' /\
    s'.(v_cache) !! ip_port line = Some (check_result r) /\
    s'.(v_probes) = s.(v_probes) ++ [ip_port line] /\
    (s'.(v_phase) !! i = Some (Done (check_result r)) \/
     (s'.(v_phase) !! i = Some (Stored (check_result r)) /\
      exists s'', vstep lines q (ELog i) s' = Some s'' /\
        s''.(v_phase) !! i = Some (Done (check_result r)))).
Proof.
  intros Hl Hph. destruct s as [c stop vs phs probes lg]; simpl in *.
  assert (Hi : i < length phs) by (eapply lookup_lt_Some; eauto).
  simpl. rewrite Hph, Hl. simpl.
  rewrite list_lookup_insert_eq by done. rewrite Hl.
  unfold check_result.
  destruct (probe_outcome r) as [res|] eqn:Ho; simpl.
  - eexists; split; [reflexivity|]; simpl.
    split; [by rewrite lookup_insert_eq|]. split; [done|].
    right. rewrite list_insert_insert_eq. split; [rewrite list_lookup_insert_eq by done; done|].
    eexists. simpl. rewrite list_lookup_insert_eq by done. rewrite Hl.
    split; [reflexivity|]. simpl.
    rewrite list_insert_insert_eq, list_lookup_insert_eq by done. done.
  - eexists; split; [reflexivity|]; simpl.
    split; [by rewrite lookup_insert_eq|]. split; [done|].
    left. rewrite list_insert_insert_eq, list_lookup_insert_eq by done. done.
Qed.

(** The claim C5 as stated: a failed probe (no answer, or an answer
    without a boolean success indicator) gives [(False, -1)]. *)
Definition failure_sentinel_claim : Prop :=
  forall r, malformed r = true -> check_result r = sentinel.

(** C5 (counterexample): the malformed answer [{"responseTime": 5}]
    (no [success] field) gives [(False, 5)], not the sentinel latency. *)
Lemma failure_sentinel_counterexample : ~ failure_sentinel_claim.
Proof.
  intros H.
  specialize (H (Body (JObj [(u "responseTime", JInt 5)])) eq_refl).
  vm_compute in H. discriminate H.
Qed.

(** C5 (amended): [check_proxy] never lets an error escape: after its
    network call it always completes, with its result stored in the cache.
    The result is [(False, -1)] when the request raises (unreachable,
    timeout), the body is not JSON, or the JSON is not an object; an
    object without a boolean [success] is invalid; for any JSON object
    the latency is its [responseTime] field (default -1). *)
Theorem probe_failure_downgraded (ip_lines : list ustr) (max_per_country : Z) (s : vstate)
    (i : nat) (line : ustr) (r : response) :
  ip_lines !! i = Some line -> s.(v_phase) !! i = Some Missed ->
  (exists s', vrun ip_lines max_per_country [ERequest i r; EStore i] s = Some s' /\
     s'.(v_cache) !! ip_port line = Some (check_result r) /\
     (s'.(v_phase) !! i = Some (Done (check_result r)) \/
      (s'.(v_phase) !! i = Some (Stored (check_result r)) /\
       exists s'', vstep ip_lines max_per_country (ELog i) s' = Some s'' /\
         s''.(v_phase) !! i = Some (Done (check_result r))))) /\
  (malformed r = true -> (check_result r).1 = false) /\
  match r with
  | Body (JObj kvs) => (check_result r).2 = default (JInt (-1)) (dict_get kvs (u "responseTime"))
  | _ => check_result r = sentinel
  end.
Proof.
  intros Hl Hph. split.
  { destruct (request_store ip_lines max_per_country s i line r Hl Hph) as (s' & H1 & H2 & _ & H4).
    eauto. }
  unfold check_result, malformed. split.
  - destruct r as [| |[]]; simpl; try done.
    destruct (dict_get kvs (u "success")) as [[]|]; done.
  - destruct r as [| |[]]; done.
Qed.

(** C9: after a network call answered with the JSON value [v],
    [check_proxy] stores and returns [valid = True] exactly when [v] is an
    object, its [success] is the boolean [true] (not merely truthy), and
    [str] of its [proxyIP] (None when absent) is not ["-1"]; in particular
    [success: true] with [proxyIP] equal to ["-1"] or [-1] is invalid. *)
Theorem check_proxy_validity (ip_lines : list ustr) (max_per_country : Z) (s : vstate)
    (i : nat) (line : ustr) (v : json) :
  ip_lines !! i = Some line -> s.(v_phase) !! i = Some Missed ->
  (exists s', vrun ip_lines max_per_country [ERequest i (Body v); EStore i] s = Some s' /\
     s'.(v_cache) !! ip_port line = Some (check_result (Body v))) /\
  ((check_result (Body v)).1 = true <->
   exists kvs, v = JObj kvs /\ dict_get kvs (u "success") = Some (JBool true) /\
     pystr (default JNull (dict_get kvs (u "proxyIP"))) <> u "-1") /\
  (forall kvs, v = JObj kvs -> dict_get kvs (u "success") = Some (JBool true) ->
     dict_get kvs (u "proxyIP") = Some (JStr (u "-1")) \/
     dict_get kvs (u "proxyIP") = Some (JInt (-1)) ->
     (check_result (Body v)).1 = false).
Proof.
  intros Hl Hph. split.
  { destruct (request_store ip_lines max_per_country s i line (Body v) Hl Hph)
      as (s' & H1 & H2 & _). eauto. }
  unfold check_result. split.
  - destruct v as [| | | | | |kvs]; simpl; split; try done;
      try (intros (kvs' & ? & _); done).
    + destruct (dict_get kvs (u "success")) as [[|[]| | | | |]|] eqn:Es; simpl; try done.
      intros Hb. apply negb_true_iff, bool_decide_eq_false in Hb. eauto.
    + intros (kvs' & Hk & Hs & Hp). simplify_eq. rewrite Hs. simpl.
      apply negb_true_iff, bool_decide_eq_false. done.
  - intros kvs -> Hs [Hp|Hp]; simpl; rewrite Hs, Hp; reflexivity.
Qed.

(** C10: if the stop flag is already set when a worker reaches line 20,
    [check_proxy] returns [(False, -1)] at once, whatever the cache holds
    for the address, and leaves the cache, the log file, the probe calls
    and [valid_ips] unchanged. *)
Theorem stop_flag_early_exit (ip_lines : list ustr) (max_per_country : Z) (s : vstate) (i : nat) :
  s.(v_phase) !! i = Some Taken -> s.(v_stop) = true ->
  exists s', vstep ip_lines max_per_country (ECheck i) s = Some s' /\
    s'.(v_phase) !! i = Some (Done sentinel) /\ s'.(v_cache) = s.(v_cache) /\
    s'.(v_log) = s.(v_log) /\ s'.(v_probes) = s.(v_probes) /\
    s'.(v_valid) = s.(v_valid) /\ s'.(v_stop) = true.
Proof.
  intros Hph Hs. destruct s as [c stop vs phs probes lg]; simpl in *; subst stop.
  rewrite Hph. eexists; split; [reflexivity|]; simpl.
  split; [|done]. apply list_lookup_insert_eq. by eapply lookup_lt_Some.
Qed.

(** The claim C6 as stated: within a run no address is sent to the probe
    API twice. *)
Definition no_second_probe_claim : Prop :=
  forall ip_lines q cache0 log0 tr s,
    vrun ip_lines q tr (vinit ip_lines cache0 log0) = Some s -> NoDup s.(v_probes).

(** C6 (counterexample): the line [1.1.1.1:443#US] given twice; both
    workers pass the cache lookup before either stores, and both probe
    [1.1.1.1:443]. *)
Lemma no_second_probe_counterexample : ~ no_second_probe_claim.
Proof.
  intros H.
  specialize (H [ex_a; ex_a] 2%Z ∅ [] ex_dup_race
                (final [ex_a; ex_a] 2 ex_dup_race (vinit [ex_a; ex_a] ∅ []))).
  assert (Hd : NoDup [u "1.1.1.1:443"; u "1.1.1.1:443"]).
  { apply H. vm_compute. reflexivity. }
  apply NoDup_cons in Hd as [Hn _]. apply Hn. left.
Qed.

(** C6 (amended): a call that passes the stop check and finds its address
    in the cache returns the cached result without any probe call; a
    cached valid result is then accepted, counting toward the quota, when
    fewer than [max_per_country] entries are accepted. *)
Theorem cache_hit_no_probe (ip_lines : list ustr) (max_per_country : Z) (s : vstate)
    (i : nat) (line : ustr) (res : bool * json) :
  ip_lines !! i = Some line -> s.(v_phase) !! i = Some Passed ->
  s.(v_cache) !! ip_port line = Some res ->
  exists s', vrun ip_lines max_per_country [ELookup i; EConsume i] s = Some s' /\
    s'.(v_probes) = s.(v_probes) /\ s'.(v_cache) = s.(v_cache) /\
    s'.(v_phase) !! i = Some Consumed /\
    (res.1 = true -> (Z.of_nat (length s.(v_valid)) < max_per_country)%Z ->
     s'.(v_valid) = s.(v_valid) ++ [entry line res.2]).
Proof.
  intros Hl Hph Hc. destruct s as [c stop vs phs probes lg]; simpl in *.
  assert (Hi : i < length phs) by (eapply lookup_lt_Some; eauto).
  rewrite Hph, Hl, Hc. simpl.
  rewrite list_lookup_insert_eq by done. rewrite Hl.
  destruct res as [[] d]; simpl.
  - unfold accept; simpl. destruct (Z.ltb_spec (Z.of_nat (length vs)) max_per_country).
    + eexists; split; [reflexivity|]; simpl.
      rewrite list_insert_insert_eq, list_lookup_insert_eq by done. auto.
    + eexists; split; [reflexivity|]; simpl.
      rewrite list_insert_insert_eq, list_lookup_insert_eq by done.
      repeat split; try done. intros _ Hlt. lia.
  - eexists; split; [reflexivity|]; simpl.
    rewrite list_insert_insert_eq, list_lookup_insert_eq by done.
    repeat split; done.
Qed.

Lemma validate_country_pool_witness :
  let s := final [ex_a; ex_b] 1 ex_fill_first (vinit [ex_a; ex_b] ∅ []) in
  vrun [ex_a; ex_b] 1 ex_fill_first (vinit [ex_a; ex_b] ∅ []) = Some s /\
  s.(v_stop) = true /\ length s.(v_valid) = 1 /\
  first_queued s.(v_phase) = Some 1 /\ count_running s.(v_phase) < MAX_THREADS /\
  ((count_running s.(v_phase) <= MAX_THREADS /\
    forall i j phi phj, i < j -> s.(v_phase) !! j = Some phj -> is_queued phj = false ->
      s.(v_phase) !! i = Some phi -> is_queued phi = false) /\
   (forall i, first_queued s.(v_phase) = Some i -> count_running s.(v_phase) < MAX_THREADS ->
    exists s1, vstep [ex_a; ex_b] 1 EStart s = Some s1 /\
      s1.(v_phase) !! i = Some Taken /\
      (s.(v_stop) = true ->
       exists s2, vstep [ex_a; ex_b] 1 (ECheck i) s1 = Some s2 /\
         s2.(v_phase) !! i = Some (Done sentinel) /\
         s2.(v_probes) = s.(v_probes) /\ s2.(v_valid) = s.(v_valid)))).
Proof.
  intros s.
  assert (Hrun : vrun [ex_a; ex_b] 1 ex_fill_first (vinit [ex_a; ex_b] ∅ []) = Some s)
    by (vm_compute; reflexivity).
  split; [exact Hrun|]. split; [vm_compute; reflexivity|].
  split; [vm_compute; reflexivity|]. split; [vm_compute; reflexivity|].
  split; [vm_compute; lia|].
  exact (validate_country_pool [ex_a; ex_b] 1 ∅ [] ex_fill_first s Hrun).
Defined.

Lemma probe_failure_downgraded_witness :
  let s := final [ex_a] 1 [EStart; ECheck 0; ELookup 0] (vinit [ex_a] ∅ []) in
  [ex_a] !! 0 = Some ex_a /\ s.(v_phase) !! 0 = Some Missed /\
  (malformed BadBody = true -> (check_result BadBody).1 = false).
Proof.
  intros s. split; [reflexivity|]. split; [vm_compute; reflexivity|].
  apply (probe_failure_downgraded [ex_a] 1 s 0 ex_a BadBody); vm_compute; reflexivity.
Defined.

Lemma check_proxy_validity_witness :
  let s := final [ex_a] 1 [EStart; ECheck 0; ELookup 0] (vinit [ex_a] ∅ []) in
  [ex_a] !! 0 = Some ex_a /\ s.(v_phase) !! 0 = Some Missed /\
  (check_result (Body ex_minus1)).1 = false.
Proof.
  intros s. split; [reflexivity|]. split; [vm_compute; reflexivity|].
  destruct (check_proxy_validity [ex_a] 1 s 0 ex_a ex_minus1) as (_ & _ & H);
    [vm_compute; reflexivity|vm_compute; reflexivity|].
  apply (H _ eq_refl); [vm_compute; reflexivity|left; vm_compute; reflexivity].
Defined.

Lemma stop_flag_early_exit_witness :
  let s := final [ex_a; ex_b] 1 ex_fill1 (vinit [ex_a; ex_b] ex_cache_b []) in
  s.(v_phase) !! 1 = Some Taken /\ s.(v_stop) = true /\
  s.(v_cache) !! u "2.2.2.2:443" = Some (true, JInt 50) /\
  exists s', vstep [ex_a; ex_b] 1 (ECheck 1) s = Some s' /\
    s'.(v_phase) !! 1 = Some (Done sentinel) /\ s'.(v_cache) = s.(v_cache) /\
    s'.(v_log) = s.(v_log) /\ s'.(v_probes) = s.(v_probes) /\
    s'.(v_valid) = s.(v_valid) /\ s'.(v_stop) = true.
Proof.
  intros s. split; [vm_compute; reflexivity|]. split; [vm_compute; reflexivity|].
  split; [vm_compute; reflexivity|].
  apply (stop_flag_early_exit [ex_a; ex_b] 1 s 1); vm_compute; reflexivity.
Defined.

Lemma cache_hit_no_probe_witness :
  let s := final [ex_a] 2 [EStart; ECheck 0] (vinit [ex_a] ex_cache_a []) in
  [ex_a] !! 0 = Some ex_a /\ s.(v_phase) !! 0 = Some Passed /\
  s.(v_cache) !! ip_port ex_a = Some (true, JInt 50) /\
  exists s', vrun [ex_a] 2 [ELookup 0; EConsume 0] s = Some s' /\
    s'.(v_probes) = s.(v_probes) /\ s'.(v_cache) = s.(v_cache) /\
    s'.(v_phase) !! 0 = Some Consumed /\
    ((true, JInt 50).1 = true -> (Z.of_nat (length s.(v_valid)) < 2)%Z ->
     s'.(v_valid) = s.(v_valid) ++ [entry ex_a (true, JInt 50).2]).
Proof.
  intros s. split; [reflexivity|]. split; [vm_compute; reflexivity|].
  split; [vm_compute; reflexivity|].
  apply (cache_hit_no_probe [ex_a] 2 s 0 ex_a (true, JInt 50)); vm_compute; reflexivity.
Defined.

Lemma filter_ips_sorted_groups_witness :
  let result := ex_s_IN.(v_valid) ++ ex_s_NL.(v_valid) ++ ex_s_US.(v_valid) ++ [] in
  filter_ips_result ∅ [] ex_input 1 result /\
  (StronglySorted (fun a b => str_ltb a b = true) (map fst (worklist ex_input)) /\
   exists outs, result = concat outs /\
     Forall2 (fun cl out => forall e, e ∈ out ->
                exists line d, line ∈ cl.2 /\ regex_country line = Some cl.1 /\ e = entry line d)
       (worklist ex_input) outs).
Proof.
  intros result.
  assert (Hres : filter_ips_result ∅ [] ex_input 1 result).
  { unfold filter_ips_result.
    replace (worklist ex_input) with
      [(u "IN", [u "3.3.3.3:443#IN"]); (u "NL", [u "2.2.2.2:443#NL"]);
       (u "US", [u "1.1.1.1:443#US"])] by (vm_compute; reflexivity).
    apply (cr_cons 1 ∅ [] (u "IN") [u "3.3.3.3:443#IN"] _ (ex_one "3.3.3.3" 30) ex_s_IN);
      [vm_compute; reflexivity|vm_compute; reflexivity|].
    apply (cr_cons 1 _ _ (u "NL") [u "2.2.2.2:443#NL"] _ (ex_one "2.2.2.2" 20) ex_s_NL);
      [vm_compute; reflexivity|vm_compute; reflexivity|].
    apply (cr_cons 1 _ _ (u "US") [u "1.1.1.1:443#US"] _ (ex_one "1.1.1.1" 10) ex_s_US);
      [vm_compute; reflexivity|vm_compute; reflexivity|].
    apply cr_nil. }
  split; [exact Hres|].
  exact (filter_ips_sorted_groups ∅ [] ex_input 1 result Hres).
Defined.

(** The example of the specification: lines for US, NL and IN, in this
    input order, are validated in the order IN, NL, US, and each group
    holds the accepted line of its country. *)
Lemma ex_input_order :
  map fst (worklist ex_input) = [u "IN"; u "NL"; u "US"] /\
  ex_s_IN.(v_valid) ++ ex_s_NL.(v_valid) ++ ex_s_US.(v_valid) =
    [entry (u "3.3.3.3:443#IN") (JInt 30); entry (u "2.2.2.2:443#NL") (JInt 20);
     entry (u "1.1.1.1:443#US") (JInt 10)].
Proof. split; vm_compute; reflexivity. Qed.

(** ** Further invariants of [validate_country] *)

Definition pre_request (ph : phase) : bool :=
  match ph with Queued | Taken | Passed | Missed => true | _ => false end.

Lemma insert_lookup_phase (phs : list phase) i j x y :
  phs !! i = Some x ->
  <[i:=y]> phs !! j = if decide (j = i) then Some y else phs !! j.
Proof.
  intros H. case_decide; subst.
  - apply list_lookup_insert_eq. eapply lookup_lt_Some; eauto.
  - apply list_lookup_insert_ne. congruence.
Qed.

Ltac first_queued_hyp :=
  repeat match goal with
  | H : first_queued _ = Some _ |- _ => apply first_queued_lookup in H as [H _]
  end.

Ltac rw_insert :=
  repeat match goal with
  | H : ?l !! ?i = Some _ |- context [<[?i:=_]> ?l !! _] =>
      setoid_rewrite (insert_lookup_phase _ _ _ _ _ H)
  end.

Ltac same_lookup :=
  match goal with
  | H : ?l !! ?k = Some _, H' : ?l !! ?k = Some _ |- _ =>
      rewrite H in H'; simplify_eq/=
  end.

Definition probe_inv (lines : list ustr) (s : vstate) : Prop :=
  exists idx : list nat, NoDup idx /\
    Forall2 (fun i p => exists line, lines !! i = Some line /\ p = ip_port line) idx s.(v_probes) /\
    (forall i, i ∈ idx -> exists ph, s.(v_phase) !! i = Some ph /\ pre_request ph = false).

Lemma probe_inv_step lines q e s s' :
  probe_inv lines s -> vstep lines q e s = Some s' -> probe_inv lines s'.
Proof.
  intros (idx & Hnd & Hf & Hph) H.
  destruct s as [c stop vs phs probes lg]; simpl in *.
  step_cases H; unfold accept in *; repeat (case_match; simplify_eq/=); first_queued_hyp.
  all: unfold probe_inv; simpl.
  all: try (exists idx; split; [done|]; split; [done|]; intros jj Hjj;
            destruct (Hph jj Hjj) as (ph & Hl & Hp); rw_insert; case_decide; subst;
            [first [eexists; split; [reflexivity|done] | exfalso; same_lookup] | eauto]).
  (* the network call *)
  match goal with H : phs !! ?k = Some Missed |- _ => exists (idx ++ [k]) end.
  split; [|split].
  - apply NoDup_app. split; [done|]. split; [|apply NoDup_singleton].
    intros j Hj ->%list_elem_of_singleton. destruct (Hph _ Hj) as (ph & Hl & Hp).
    same_lookup.
  - apply Forall2_app; [done|]. constructor; [|constructor]. eauto.
  - intros j Hj. rw_insert. case_decide; [subst; eexists; split; [reflexivity|done]|].
    apply elem_of_app in Hj as [Hj|Hj]; [by apply Hph|].
    by apply list_elem_of_singleton in Hj.
Qed.



Lemma countb_le f (l : list phase) : countb f l <= length l.
Proof. induction l as [|x l IH]; simpl; [lia|]. destruct (f x); lia. Qed.

Ltac count_insert f :=
  repeat match goal with
  | H : ?l !! ?k = Some ?x |- context [countb f (<[?k:=?y]> ?l)] =>
      lazymatch goal with
      | _ : countb f (<[k:=y]> l) + _ = _ |- _ => fail
      | _ => pose proof (countb_insert f l k x y H)
      end
  end.

(** [validate_country] makes at most one network call per input line:
    the addresses sent to the probe API are the [ip_port] of pairwise
    distinct lines, so there are at most [len(ip_lines)] of them, whatever
    the cache, the quota or the interleaving. *)
Theorem validate_country_probes_per_line (ip_lines : list ustr) (max_per_country : Z)
    (cache0 : gmap ustr (bool * json)) (log0 : list ustr) (tr : list event) (s : vstate) :
  vrun ip_lines max_per_country tr (vinit ip_lines cache0 log0) = Some s ->
  (exists idx : list nat, NoDup idx /\
     Forall2 (fun i p => exists line, ip_lines !! i = Some line /\ p = ip_port line)
       idx s.(v_probes)) /\
  length s.(v_probes) <= length ip_lines.
Proof.
  intros Hrun.
  assert (Hinv : probe_inv ip_lines s).
  { refine (vrun_ind ip_lines max_per_country (probe_inv ip_lines) _ tr _ s _ Hrun).
    - intros e. apply probe_inv_step.
    - exists []. split; [constructor|]. split; [constructor|]. intros i Hi. set_solver. }
  destruct Hinv as (idx & Hnd & Hf & _).
  split; [by exists idx|].
  rewrite <- (Forall2_length _ _ _ Hf).
  rewrite <- (length_seq (length ip_lines) 0).
  apply submseteq_length, NoDup_submseteq; [done|].
  assert (Hlt : Forall (fun i => i < length ip_lines) idx).
  { eapply Forall2_Forall_l; [exact Hf|]. apply Forall_forall.
    intros p _ x (line & Hl & _). eapply lookup_lt_Some; eauto. }
  intros i Hi. apply elem_of_seq. rewrite Forall_forall in Hlt. specialize (Hlt i Hi). lia.
Qed.

Lemma valid_le_consumed_step lines q e s s' :
  length s.(v_valid) <= countb is_consumed s.(v_phase) ->
  vstep lines q e s = Some s' ->
  length s'.(v_valid) <= countb is_consumed s'.(v_phase).
Proof.
  intros Hle H. destruct s as [c stop vs phs probes lg]; simpl in *.
  step_cases H; unfold accept in *; repeat (case_match; simplify_eq/=); first_queued_hyp;
    count_insert is_consumed; simpl in *; rewrite ?length_app in *; simpl in *; lia.
Qed.

(** Every entry of [valid_ips] comes from a distinct future handled by the
    main thread, so [valid_ips] never has more entries than there are
    input lines, whatever the quota. *)
Theorem validate_country_valid_le_consumed (ip_lines : list ustr) (max_per_country : Z)
    (cache0 : gmap ustr (bool * json)) (log0 : list ustr) (tr : list event) (s : vstate) :
  vrun ip_lines max_per_country tr (vinit ip_lines cache0 log0) = Some s ->
  length s.(v_valid) <= countb is_consumed s.(v_phase) <= length ip_lines.
Proof.
  intros Hrun. split.
  - refine (vrun_ind ip_lines max_per_country
              (fun s => length s.(v_valid) <= countb is_consumed s.(v_phase)) _ tr _ s _ Hrun).
    + intros e. apply valid_le_consumed_step.
    + simpl. lia.
  - rewrite <- (length_replicate (length ip_lines) Queued).
    change (replicate (length ip_lines) Queued) with (vinit ip_lines cache0 log0).(v_phase).
    rewrite <- (phase_length_run _ _ _ _ _ Hrun). apply countb_le.
Qed.

Definition log_pending (ph : phase) : bool :=
  match ph with Responded _ | Stored _ => true | _ => false end.

Definition log_inv (lines : list ustr) (log0 : list ustr) (s : vstate) : Prop :=
  exists new, s.(v_log) = log0 ++ new /\
    length new + countb log_pending s.(v_phase) <= length s.(v_probes) /\
    (forall l, l ∈ new -> exists line res, line ∈ lines /\ l = log_line (ip_port line) res).

Lemma log_inv_step lines q log0 e s s' :
  log_inv lines log0 s -> vstep lines q e s = Some s' -> log_inv lines log0 s'.
Proof.
  intros (new & Hlg & Hlen & Hnew) H.
  destruct s as [c stop vs phs probes lg]; simpl in *; subst lg.
  step_cases H; unfold accept in *; repeat (case_match; simplify_eq/=); first_queued_hyp;
    unfold log_inv; simpl in *; count_insert log_pending; simpl in *.
  all: try (exists new; split; [done|]; split; [rewrite ?length_app; simpl in *; lia|done]).
  (* the log write of line 47 *)
  match goal with H : lines !! _ = Some ?line, H' : phs !! _ = Some (Stored ?res) |- _ =>
    exists (new ++ [log_line (ip_port line) res]) end.
  split; [by rewrite app_assoc|]. split; [rewrite length_app; simpl in *; lia|].
  intros l' Hl'. apply elem_of_app in Hl' as [Hl'|Hl']; [by apply Hnew|].
  apply list_elem_of_singleton in Hl' as ->. do 2 eexists. split; [|reflexivity].
  eapply list_elem_of_lookup_2; eauto.
Qed.

(** [validate_country] only appends to the log file; it appends at most
    one line per network call, each of the form written by line 47 for
    the address of one of its lines. *)
Theorem validate_country_log_appends (ip_lines : list ustr) (max_per_country : Z)
    (cache0 : gmap ustr (bool * json)) (log0 : list ustr) (tr : list event) (s : vstate) :
  vrun ip_lines max_per_country tr (vinit ip_lines cache0 log0) = Some s ->
  exists new, s.(v_log) = log0 ++ new /\ length new <= length s.(v_probes) /\
    forall l, l ∈ new -> exists line res, line ∈ ip_lines /\ l = log_line (ip_port line) res.
Proof.
  intros Hrun.
  assert (Hinit : log_inv ip_lines log0 (vinit ip_lines cache0 log0)).
  { exists []. simpl. rewrite app_nil_r. split; [done|]. split; [|set_solver].
    induction (length ip_lines); simpl; lia. }
  destruct (vrun_ind ip_lines max_per_country (log_inv ip_lines log0)
              (fun e => log_inv_step ip_lines max_per_country log0 e) tr _ s Hinit Hrun)
    as (new & Hlg & Hlen & Hnew).
  exists new. split; [done|]. split; [lia|done].
Qed.

Definition is_responded (ph : phase) : bool :=
  match ph with Responded _ => true | _ => false end.

Definition cache_inv (lines : list ustr) (cache0 : gmap ustr (bool * json)) (s : vstate) : Prop :=
  (forall k, is_Some (cache0 !! k) -> is_Some (s.(v_cache) !! k)) /\
  (forall k, is_Some (s.(v_cache) !! k) -> is_Some (cache0 !! k) \/ k ∈ s.(v_probes)) /\
  (forall i line r, s.(v_phase) !! i = Some (Responded r) -> lines !! i = Some line ->
     ip_port line ∈ s.(v_probes)) /\
  (forall p, p ∈ s.(v_probes) -> is_Some (s.(v_cache) !! p) \/
     exists i line r, s.(v_phase) !! i = Some (Responded r) /\ lines !! i = Some line /\
       p = ip_port line).

(** A step that changes the phase of one task from [x] to [y], neither a
    pending network answer, and keeps cache and probes. *)
Lemma cache_inv_other lines cache0 c stop vs vs' stop' phs probes lg lg' i x y :
  phs !! i = Some x -> is_responded x = false -> is_responded y = false ->
  cache_inv lines cache0 (mkV c stop vs phs probes lg) ->
  cache_inv lines cache0 (mkV c stop' vs' (<[i:=y]> phs) probes lg').
Proof.
  intros Hx Hnx Hny (H1 & H2 & H3 & H4); unfold cache_inv; simpl in *.
  split; [done|]. split; [done|]. split.
  - intros j line r Hj Hl. rewrite (insert_lookup_phase _ _ _ _ _ Hx) in Hj.
    case_decide; [simplify_eq/=|by eapply H3].
  - intros p Hp. destruct (H4 p Hp) as [?|(j & line & r & Hj & Hl & ->)]; [by left|right].
    exists j, line, r. rewrite (insert_lookup_phase _ _ _ _ _ Hx).
    case_decide; [simplify_eq/=|done].
Qed.

Ltac ins_phase :=
  match goal with
  | Hx : ?l !! ?k = Some _ |- context [<[?k:=_]> ?l !! _] =>
      rewrite (insert_lookup_phase _ _ _ _ _ Hx)
  end.

Ltac ins_phase_in Hj :=
  match type of Hj with
  | context [<[?k:=_]> ?l !! _] =>
      match goal with Hx : l !! k = Some _ |- _ => rewrite (insert_lookup_phase _ _ _ _ _ Hx) in Hj end
  end.

Lemma cache_inv_step lines q cache0 e s s' :
  cache_inv lines cache0 s -> vstep lines q e s = Some s' -> cache_inv lines cache0 s'.
Proof.
  intros Hinv H. destruct s as [c stop vs phs probes lg].
  step_cases H; unfold accept in *; repeat (case_match; simplify_eq/=); first_queued_hyp.
  all: try (by eapply cache_inv_other; eauto).
  all: destruct Hinv as (Hc0 & Hc1 & Hc2 & Hc3); unfold cache_inv; simpl in *.
  2,3: (* EStore: line 38, or lines 50-54 *)
    split; [intros k Hk; rewrite lookup_insert_is_Some'; right; auto|];
    split; [intros k Hk; rewrite lookup_insert_is_Some' in Hk;
            destruct Hk as [<-|Hk]; [right; by eapply Hc2|by apply Hc1]|];
    split;
    [ intros j line' r' Hj Hl; ins_phase_in Hj;
      case_decide; [simplify_eq/=|by eapply Hc2]
    | intros pp Hp; destruct (Hc3 pp Hp) as [Hc|(j & line' & r' & Hj & Hl & ->)];
      [ left; rewrite lookup_insert_is_Some'; auto
      | match goal with |- context [<[?k:=_]> ?l] =>
          destruct (decide (j = k)) as [->|Hne] end;
        [ left; simplify_eq/=; rewrite lookup_insert_is_Some'; auto
        | right; exists j, line', r'; ins_phase; by rewrite decide_False ] ] ].
  - (* ERequest: lines 26-29 *)
    split; [done|]. split; [intros k Hk; destruct (Hc1 k Hk); [by left|right; set_solver]|].
    split.
    + intros j line' r' Hj Hl. ins_phase_in Hj.
      case_decide; [simplify_eq/=; set_solver|].
      apply elem_of_app. left. by eapply Hc2.
    + intros p Hp. apply elem_of_app in Hp as [Hp|Hp%list_elem_of_singleton]; [|subst p].
      * destruct (Hc3 p Hp) as [?|(j & line' & r' & Hj & Hl & ->)]; [by left|right].
        exists j, line', r'. ins_phase.
        case_decide; [simplify_eq/=|done].
      * right. do 3 eexists. ins_phase. rewrite decide_True by done. eauto.
Qed.

(** Line 38 and lines 50-54 only insert into [verified_cache]. *)
Lemma cache_mono_step lines q e s s' k :
  vstep lines q e s = Some s' -> is_Some (s.(v_cache) !! k) -> is_Some (s'.(v_cache) !! k).
Proof.
  intros H Hk. destruct s as [c stop vs phs probes lg]; simpl in *.
  step_cases H; unfold accept in *; repeat (case_match; simplify_eq/=); try done.
  all: rewrite lookup_insert_is_Some'; auto.
Qed.

Lemma cache_mono_run lines q tr s s' k :
  vrun lines q tr s = Some s' -> is_Some (s.(v_cache) !! k) -> is_Some (s'.(v_cache) !! k).
Proof.
  revert s. induction tr as [|e tr IH]; intros s Hrun Hk; simpl in Hrun; [by simplify_eq|].
  destruct (vstep lines q e s) as [s1|] eqn:E; [|done].
  eapply IH; [exact Hrun|]. eapply cache_mono_step; eauto.
Qed.

(** Entries are never removed from [verified_cache]: a key present at some
    point of the run is present at every later point. Every key is one the
    cache held before or an address sent to the probe API, and once
    [validate_country] has handled every future the cache holds exactly the
    addresses it held before plus every address sent to the probe API. *)
Theorem validate_country_cache_keys (ip_lines : list ustr) (max_per_country : Z)
    (cache0 : gmap ustr (bool * json)) (log0 : list ustr) (tr : list event) (s : vstate) :
  vrun ip_lines max_per_country tr (vinit ip_lines cache0 log0) = Some s ->
  (forall tr' s' k, vrun ip_lines max_per_country tr' s = Some s' ->
     is_Some (s.(v_cache) !! k) -> is_Some (s'.(v_cache) !! k)) /\
  (forall k, is_Some (s.(v_cache) !! k) -> is_Some (cache0 !! k) \/ k ∈ s.(v_probes)) /\
  (finished s = true ->
   forall k, is_Some (s.(v_cache) !! k) <-> is_Some (cache0 !! k) \/ k ∈ s.(v_probes)).
Proof.
  intros Hrun.
  assert (Hinit : cache_inv ip_lines cache0 (vinit ip_lines cache0 log0)).
  { unfold cache_inv; simpl. split; [done|]. split; [auto|]. split.
    - intros i line r Hi. by apply lookup_replicate_1 in Hi as [? _].
    - intros p Hp. set_solver. }
  destruct (vrun_ind ip_lines max_per_country (cache_inv ip_lines cache0)
              (fun e => cache_inv_step ip_lines max_per_country cache0 e) tr _ s Hinit Hrun)
    as (Hc0 & Hc1 & Hc2 & Hc3).
  split; [intros tr' s' k; apply cache_mono_run|]. split; [done|].
  intros Hfin k. split; [apply Hc1|]. intros [Hk|Hk]; [by apply Hc0|].
  destruct (Hc3 k Hk) as [?|(i & line & r & Hi & _)]; [done|].
  rewrite (finished_lookup s i Hfin) in Hi; [done|]. eapply lookup_lt_Some; eauto.
Qed.

(** ** Buckets of [country_map] *)

Definition code_ok (cc : ustr) : Prop :=
  exists a b, cc = [a; b] /\ is_upper a = true /\ is_upper b = true.

Lemma regex_country_code s cc : regex_country s = Some cc -> code_ok cc.
Proof.
  unfold regex_country. intros H.
  destruct (rev s) as [|b [|a [|h t]]]; try done.
  destruct ((h =? hash_char)%N && is_upper a && is_upper b) eqn:E.
  - simplify_eq. apply andb_true_iff in E as [E Hb]. apply andb_true_iff in E as [_ Ha].
    by exists a, b.
  - destruct t as [|h' t]; [done|].
    destruct ((b =? 10)%N && (h' =? hash_char)%N && is_upper h && is_upper a) eqn:E'; [|done].
    simplify_eq. repeat (apply andb_true_iff in E' as [E' ?]). by exists h, a.
Qed.

Lemma foldl_add_line_buckets (l : list ustr) (m : gmap ustr (list ustr)) :
  (forall cc ls, m !! cc = Some ls -> ls <> [] /\ code_ok cc) ->
  forall cc ls, foldl add_line m l !! cc = Some ls -> ls <> [] /\ code_ok cc.
Proof.
  revert m. induction l as [|raw l IH]; intros m Hm; simpl; [done|].
  apply IH. intros cc ls. unfold add_line.
  destruct (_ || _); [apply Hm|].
  destruct (regex_country (strip raw)) as [c'|] eqn:Ec; [|apply Hm].
  rewrite lookup_insert. case_decide; [|apply Hm]. subst c'.
  intros [= <-]. split; [|by eapply regex_country_code].
  intros Hnil. by apply app_nil in Hnil as [_ ?].
Qed.

Lemma worklist_lookup input_data cc ls :
  (cc, ls) ∈ worklist input_data -> country_map input_data !! cc = Some ls.
Proof.
  unfold worklist, sorted_keys. intros Hin.
  apply list_elem_of_fmap in Hin as (c' & [= <- ->] & Hc).
  rewrite (merge_sort_Permutation str_le) in Hc.
  apply list_elem_of_fmap in Hc as ([k v] & -> & Hkv). simpl.
  apply elem_of_map_to_list in Hkv. by rewrite Hkv.
Qed.

(** [validate_country] is only called with a non-empty list of lines and
    a country code of two uppercase letters. *)
Theorem worklist_buckets_nonempty (input_data cc : ustr) (ls : list ustr) :
  (cc, ls) ∈ worklist input_data ->
  ls <> [] /\ exists a b, cc = [a; b] /\ is_upper a = true /\ is_upper b = true.
Proof.
  intros Hin. apply worklist_lookup in Hin.
  revert Hin. unfold country_map. apply foldl_add_line_buckets.
  intros ? ? H. by rewrite lookup_empty in H.
Qed.

(** ** Candidate lines *)

Lemma lstrip_suffix (s : ustr) : exists pre, s = pre ++ lstrip s.
Proof.
  induction s as [|c s IH]; simpl; [by exists []|].
  destruct (is_space c); [|by exists []].
  destruct IH as [pre Hpre]. exists (c :: pre). simpl. by f_equal.
Qed.

Lemma strip_prefix (raw : ustr) : exists suf, lstrip raw = strip raw ++ suf.
Proof.
  unfold strip, rstrip. destruct (lstrip_suffix (rev (lstrip raw))) as [pre Hpre].
  exists (rev pre). rewrite <- rev_app_distr, <- Hpre. by rewrite rev_involutive.
Qed.

Lemma strip_first (raw : ustr) c t : strip raw = c :: t -> is_space c = false.
Proof.
  intros Hs. destruct (strip_prefix raw) as [suf Hsuf]. rewrite Hs in Hsuf.
  by apply lstrip_head in Hsuf.
Qed.

Lemma strip_elem (raw : ustr) x : x ∈ strip raw -> x ∈ raw.
Proof.
  intros Hx. destruct (strip_prefix raw) as [suf Hsuf].
  destruct (lstrip_suffix raw) as [pre Hpre].
  rewrite Hpre, Hsuf. set_solver.
Qed.

Lemma split_on_no_sep sep (s piece : ustr) : piece ∈ split_on sep s -> sep ∉ piece.
Proof.
  revert piece. induction s as [|c s IH]; intros piece Hp; simpl in Hp.
  - apply list_elem_of_singleton in Hp as ->. set_solver.
  - destruct (c =? sep)%N eqn:E.
    + apply elem_of_cons in Hp as [->|Hp]; [set_solver|by apply IH].
    + apply N.eqb_neq in E.
      destruct (split_on sep s) as [|w ws] eqn:Hs.
      * apply list_elem_of_singleton in Hp as ->. set_solver.
      * apply elem_of_cons in Hp as [->|Hp].
        -- assert (sep ∉ w) by (apply IH; set_solver). set_solver.
        -- apply IH. set_solver.
Qed.

Lemma bucket_line_shape (input_data cc : ustr) (ls : list ustr) (line : ustr) :
  (cc, ls) ∈ worklist input_data -> line ∈ ls ->
  (forall c t, line = c :: t -> is_space c = false) /\
  (forall c t, rev line = c :: t -> is_space c = false) /\
  (10%N ∉ line) /\
  contains (u ":443#") line = true /\
  exists pre a b, line = pre ++ [hash_char; a; b] /\ cc = [a; b] /\
    is_upper a = true /\ is_upper b = true.
Proof.
  intros Hin Hl. apply worklist_lookup in Hin.
  pose proof (foldl_add_line_bucket (split_on 10%N (strip input_data)) ∅ cc) as Hb.
  fold (country_map input_data) in Hb. rewrite Hin, lookup_empty in Hb. simpl in Hb.
  rewrite Hb in Hl. apply list_elem_of_In, filter_In in Hl as [Hl Hk].
  apply list_elem_of_In, list_elem_of_fmap in Hl as (raw & -> & Hraw).
  unfold worklist_keep in Hk. apply andb_true_iff in Hk as [Hcon Hend].
  split; [apply strip_first|]. split; [apply strip_last|].
  split; [intros H10; apply strip_elem in H10; by apply (split_on_no_sep _ _ _ Hraw)|].
  split; [done|].
  unfold ends_with_code in Hend.
  destruct (rev (strip raw)) as [|b [|a [|h t]]] eqn:Er; try done.
  repeat (apply andb_true_iff in Hend as [Hend ?]).
  apply N.eqb_eq in Hend.
  match goal with H : bool_decide _ = true |- _ => apply bool_decide_eq_true in H end. subst.
  exists (rev t), a, b. split; [|done].
  rewrite <- (rev_involutive (strip raw)), Er. simpl. by rewrite <- !app_assoc.
Qed.

(** ** Size of the result *)

Lemma valid_le_lines_run (ip_lines : list ustr) (q : Z) cache0 log0 tr s :
  vrun ip_lines q tr (vinit ip_lines cache0 log0) = Some s ->
  length s.(v_valid) <= length ip_lines.
Proof.
  intros Hrun.
  assert (length s.(v_valid) <= countb is_consumed s.(v_phase)).
  { refine (vrun_ind ip_lines q
              (fun s => length s.(v_valid) <= countb is_consumed s.(v_phase)) _ tr _ s _ Hrun).
    - intros e. apply valid_le_consumed_step.
    - simpl. lia. }
  pose proof (countb_le is_consumed s.(v_phase)).
  rewrite (phase_length_run _ _ _ _ _ Hrun) in H0. simpl in H0.
  rewrite length_replicate in H0. lia.
Qed.

Lemma countries_run_bounded q c lg wl out :
  countries_run q c lg wl out ->
  exists outs, out = concat outs /\
    Forall2 (fun cl o => length o <= Z.to_nat (Z.max 0 q) /\ length o <= length cl.2 /\
               forall e, e ∈ o -> exists line d, line ∈ cl.2 /\ e = entry line d)
      wl outs.
Proof.
  induction 1 as [c lg|c lg country lines rest tr s out Hrun Hfin Hrest IH].
  - exists []. split; [done|constructor].
  - destruct IH as (outs & -> & Hf). exists (s.(v_valid) :: outs). split; [done|].
    constructor; [|done]. simpl.
    split; [exact (valid_le_quota_run lines q tr (vinit lines c lg) s ltac:(simpl; lia) Hrun)|].
    split; [exact (valid_le_lines_run lines q c lg tr s Hrun)|].
    refine (vrun_ind lines q (entries_inv lines) _ tr _ s _ Hrun).
    + intros e. apply entries_inv_step.
    + intros e He. simpl in He. by apply not_elem_of_nil in He.
Qed.

(** The result of [filter_ips] is made of one group per country, in the
    order of line 129: each group holds at most [max_per_country] entries
    (none when [max_per_country <= 0]), at most one per candidate line of
    its country, and only entries built from that country's lines. *)
Theorem filter_ips_result_length (cache0 : gmap ustr (bool * json)) (log0 : list ustr)
    (input_data : ustr) (max_per_country : Z) (result : list ustr) :
  filter_ips_result cache0 log0 input_data max_per_country result ->
  exists outs, result = concat outs /\
    Forall2 (fun cl o => length o <= Z.to_nat (Z.max 0 max_per_country) /\
               length o <= length cl.2 /\
               forall e, e ∈ o -> exists line d, line ∈ cl.2 /\ e = entry line d)
      (worklist input_data) outs.
Proof. apply countries_run_bounded. Qed.

(** ** Inputs without candidates *)

Lemma foldl_add_line_skip (l : list ustr) (m : gmap ustr (list ustr)) :
  (forall raw, raw ∈ l -> contains (u ":443#") (strip raw) = false) ->
  foldl add_line m l = m.
Proof.
  revert m. induction l as [|raw l IH]; intros m Hl; simpl; [done|].
  unfold add_line at 2. rewrite (Hl raw) by set_solver. rewrite orb_true_r.
  apply IH. set_solver.
Qed.

(** When no stripped input line contains [:443#] (an empty or blank input
    in particular), no country is validated and [filter_ips] returns the
    empty string. *)
Theorem filter_ips_no_candidates (cache0 : gmap ustr (bool * json)) (log0 : list ustr)
    (input_data : ustr) (max_per_country : Z) (result : list ustr) :
  Forall (fun raw => contains (u ":443#") (strip raw) = false)
    (split_on 10%N (strip input_data)) ->
  filter_ips_result cache0 log0 input_data max_per_country result ->
  worklist input_data = [] /\ result = [] /\ filter_ips_output result = [].
Proof.
  intros Hno Hrun. rewrite Forall_forall in Hno.
  assert (Hw : worklist input_data = []).
  { unfold worklist, country_map. rewrite foldl_add_line_skip by done. reflexivity. }
  unfold filter_ips_result in Hrun. rewrite Hw in Hrun. inversion Hrun. done.
Qed.

(** ** [__main__] *)

Lemma Forall2_concat_elem {A B} (P : A -> list B -> Prop) (l : list A) (outs : list (list B)) e :
  Forall2 P l outs -> e ∈ concat outs -> exists x o, x ∈ l /\ P x o /\ e ∈ o.
Proof.
  induction 1 as [|x o l outs Hxo _ IH]; simpl; [set_solver|].
  intros He. apply elem_of_app in He as [He|He].
  - exists x, o. split; [set_solver|done].
  - destruct (IH He) as (x' & o' & ? & ? & ?). exists x', o'. split; [set_solver|done].
Qed.

Lemma result_entries_shape cache0 log0 input_data q result :
  filter_ips_result cache0 log0 input_data q result ->
  forall e, e ∈ result -> exists line d, line ∈ concat (map snd (worklist input_data)) /\
    e = entry line d.
Proof.
  intros Hrun e He. destruct (countries_run_groups _ _ _ _ _ Hrun) as (outs & -> & Hf).
  destruct (Forall2_concat_elem _ _ _ _ Hf He) as ([cc ls] & o & Hcl & Ho & Heo).
  destruct (Ho e Heo) as (line & d & Hl & ->). exists line, d. split; [|done].
  apply list_elem_of_In, in_concat. exists ls. split; [|by apply list_elem_of_In].
  apply in_map_iff. exists (cc, ls). split; [done|by apply list_elem_of_In].
Qed.

(** Each line passed to [validate_country] has no leading or trailing
    whitespace and no newline, contains [:443#], and ends with [#] and the
    two uppercase letters of its country. *)
Theorem worklist_line_shape (input_data cc : ustr) (ls : list ustr) (line : ustr) :
  (cc, ls) ∈ worklist input_data -> line ∈ ls ->
  (forall c t, line = c :: t -> is_space c = false) /\
  (forall c t, rev line = c :: t -> is_space c = false) /\
  (10%N ∉ line) /\
  contains (u ":443#") line = true /\
  exists pre a b, line = pre ++ [hash_char; a; b] /\ cc = [a; b] /\
    is_upper a = true /\ is_upper b = true.
Proof. apply bucket_line_shape. Qed.

Lemma line_break_space c : is_line_break c = true -> is_space c = true.
Proof.
  unfold is_line_break, is_space.
  rewrite !orb_true_iff, !andb_true_iff, !N.leb_le, !N.eqb_eq. lia.
Qed.

Lemma result_entries_head cache0 log0 input_data q result :
  filter_ips_result cache0 log0 input_data q result ->
  forall e, e ∈ result -> exists c t, e = c :: t /\ is_space c = false /\ is_line_break c = false.
Proof.
  intros Hrun e He.
  destruct (result_entries_shape _ _ _ _ _ Hrun e He) as (line & d & Hl & ->).
  apply list_elem_of_In, in_concat in Hl as (ls & Hls & Hl).
  apply in_map_iff in Hls as ([cc ls'] & <- & Hcl). simpl in Hl.
  apply list_elem_of_In in Hcl, Hl.
  destruct (bucket_line_shape _ _ _ _ Hcl Hl) as (Hfirst & _ & _ & _ & pre & a & b & Hline & _).
  destruct line as [|c t]; [by destruct pre|].
  exists c, (t ++ u "#" ++ yanchi ++ u ":" ++ pystr d ++ u "ms"). split; [done|].
  specialize (Hfirst c t eq_refl). split; [done|].
  destruct (is_line_break c) eqn:Eb; [|done].
  by rewrite (line_break_space c Eb) in Hfirst.
Qed.

Lemma lstrip_snoc_nonspace (l : ustr) c : is_space c = false -> lstrip (l ++ [c]) <> [].
Proof.
  intros Hc. induction l as [|x l IH]; simpl; [by rewrite Hc|].
  by destruct (is_space x).
Qed.

Lemma strip_cons_nonspace c w : is_space c = false -> strip (c :: w) <> [].
Proof.
  intros Hc. unfold strip, rstrip. simpl. rewrite Hc. simpl.
  intros H. apply (f_equal length) in H. rewrite length_rev in H.
  apply (lstrip_snoc_nonspace (rev w) c Hc). by destruct (lstrip (rev w ++ [c])).
Qed.

(** The script writes [filtered_ips.txt] exactly when [filter_ips]
    accepted at least one proxy; otherwise it only prints its warning. *)
Theorem main_writes_iff_accepted (cache0 : gmap ustr (bool * json)) (log0 : list ustr)
    (input_data : ustr) (max_per_country : Z) (result : list ustr) :
  filter_ips_result cache0 log0 input_data max_per_country result ->
  (main_report (filter_ips_output result) = None <-> result = []).
Proof.
  intros Hrun. unfold main_report, filter_ips_output. split.
  - intros Hn. destruct result as [|e rest]; [done|exfalso].
    destruct (result_entries_head _ _ _ _ _ Hrun e ltac:(set_solver)) as (c & t & -> & Hc & _).
    case_bool_decide as Hs; [|done].
    assert (Hj : exists w, join [10%N] ((c :: t) :: rest) = c :: w)
      by (destruct rest; eexists; reflexivity).
    destruct Hj as [w Hw]. rewrite Hw in Hs. by apply (strip_cons_nonspace c w).
  - intros ->. reflexivity.
Qed.

Lemma splitlines_acc_app (x s cur : ustr) :
  (forall c, c ∈ x -> is_line_break c = false) ->
  splitlines_acc (x ++ s) cur = splitlines_acc s (rev x ++ cur).
Proof.
  revert cur. induction x as [|c x IH]; intros cur Hx; simpl; [done|].
  rewrite (Hx c) by set_solver. rewrite IH by set_solver. by rewrite <- app_assoc.
Qed.

Lemma splitlines_join (xs : list ustr) :
  Forall (fun x => x <> [] /\ forall c, c ∈ x -> is_line_break c = false) xs ->
  splitlines (join [10%N] xs) = xs.
Proof.
  unfold splitlines. induction 1 as [|x xs [Hne Hx] Hall IH]; [done|].
  destruct xs as [|y xs].
  - simpl. rewrite <- (app_nil_r x) at 1. rewrite splitlines_acc_app by done.
    rewrite app_nil_r. simpl.
    destruct (rev x) eqn:E; [by apply (f_equal (@rev N)) in E; rewrite rev_involutive in E|].
    by rewrite <- E, rev_involutive.
  - change (join [10%N] (x :: y :: xs)) with (x ++ [10%N] ++ join [10%N] (y :: xs)).
    rewrite splitlines_acc_app by done. rewrite app_nil_r.
    remember (join [10%N] (y :: xs)) as J eqn:HJ. simpl.
    rewrite rev_involutive. f_equal. rewrite <- IH.
    destruct J; reflexivity.
Qed.

(** When no entry contains a character that [splitlines] treats as a line
    boundary, the count printed by line 152 is the number of entries
    returned by [filter_ips]. *)
Theorem main_count_accurate (cache0 : gmap ustr (bool * json)) (log0 : list ustr)
    (input_data : ustr) (max_per_country : Z) (result : list ustr) :
  filter_ips_result cache0 log0 input_data max_per_country result ->
  result <> [] ->
  (forall e c, e ∈ result -> c ∈ e -> is_line_break c = false) ->
  main_report (filter_ips_output result) =
    Some (filter_ips_output result, length result).
Proof.
  intros Hrun Hne Hnb.
  assert (Hnone : main_report (filter_ips_output result) <> None).
  { intros Hn. apply Hne. unfold main_report, filter_ips_output in *.
    destruct result as [|e rest]; [done|exfalso].
    destruct (result_entries_head _ _ _ _ _ Hrun e ltac:(set_solver)) as (c & t & -> & Hc & _).
    case_bool_decide as Hs; [|done].
    assert (Hj : exists w, join [10%N] ((c :: t) :: rest) = c :: w)
      by (destruct rest; eexists; reflexivity).
    destruct Hj as [w Hw]. rewrite Hw in Hs. by apply (strip_cons_nonspace c w). }
  revert Hnone. unfold main_report. case_bool_decide; [done|]. intros _.
  unfold filter_ips_output. rewrite splitlines_join; [done|].
  apply Forall_forall. intros e He. split.
  - destruct (result_entries_head _ _ _ _ _ Hrun e He) as (c & t & -> & _). done.
  - intros c Hc. by apply (Hnb e c).
Qed.

(** ** [validate_batch] *)

Lemma is_prefix_app (p s : ustr) : is_prefix p (p ++ s) = true.
Proof. induction p as [|c p IH]; simpl; [done|]. by rewrite N.eqb_refl. Qed.

Lemma split_on_head sep (s : ustr) :
  exists rest, s = hd [] (split_on sep s) ++ rest /\ (rest = [] \/ exists r, rest = sep :: r).
Proof.
  induction s as [|c s IH]; simpl; [exists []; auto|].
  destruct (c =? sep)%N eqn:E.
  - apply N.eqb_eq in E as ->. exists (sep :: s). simpl. eauto.
  - destruct IH as (rest & Hs & Hr).
    destruct (split_on sep s) as [|w ws]; simpl in *.
    + exists rest. rewrite Hs at 1. auto.
    + exists rest. rewrite Hs at 1. auto.
Qed.

Lemma ip_port_prefix (line : ustr) : is_prefix (ip_port line) line = true.
Proof.
  unfold ip_port. destruct (split_on_head hash_char line) as (rest & Hs & _).
  rewrite Hs at 2. apply is_prefix_app.
Qed.

Lemma first_match_spec ip (ip_batch : list ustr) line :
  first_match ip ip_batch = Some line ->
  exists j, ip_batch !! j = Some line /\ is_prefix ip line = true /\
    forall k lk, k < j -> ip_batch !! k = Some lk -> is_prefix ip lk = false.
Proof.
  induction ip_batch as [|l ls IH]; simpl; [done|].
  destruct (is_prefix ip l) eqn:E.
  - intros [= <-]. exists 0. split; [done|]. split; [done|]. intros; lia.
  - intros H. destruct (IH H) as (j & Hj & Hp & Hk). exists (S j). split; [done|].
    split; [done|]. intros [|k] lk Hlt Hl; simpl in Hl; [by simplify_eq|].
    apply (Hk k); [lia|done].
Qed.

Lemma first_match_le ip (ip_batch : list ustr) i li j line :
  ip_batch !! i = Some li -> is_prefix ip li = true ->
  ip_batch !! j = Some line ->
  (forall k lk, k < j -> ip_batch !! k = Some lk -> is_prefix ip lk = false) -> j <= i.
Proof.
  intros Hi Hp Hj Hk. destruct (decide (j <= i)); [done|].
  rewrite (Hk i li) in Hp; [done|lia|done].
Qed.

(** Each entry returned by [validate_batch] comes from a valid result of
    some future [i], but it is built from the first line of the batch that
    starts with the address of line [i]: that line comes no later than
    line [i] and may be a different line. *)
Theorem validate_batch_entries (ip_batch : list ustr)
    (completed : list (nat * (bool * json) * bool)) (out : list ustr) (e : ustr) :
  validate_batch ip_batch completed = Some out -> e ∈ out ->
  exists i li delay stopped j line,
    (i, (true, delay), stopped) ∈ completed /\ ip_batch !! i = Some li /\
    ip_batch !! j = Some line /\ j <= i /\
    is_prefix (ip_port li) line = true /\
    (forall k lk, k < j -> ip_batch !! k = Some lk -> is_prefix (ip_port li) lk = false) /\
    e = entry line delay.
Proof.
  unfold validate_batch. case_match; [done|]. intros [= <-].
  induction completed as [|[[i [valid delay]] stopped] rest IH]; simpl; [set_solver|].
  intros He. apply elem_of_app in He as [He|He].
  - destruct valid; [|set_solver].
    destruct (map ip_port ip_batch !! i) as [ip|] eqn:Eip; [|set_solver].
    destruct (first_match ip ip_batch) as [line|] eqn:Em; [|set_solver].
    apply list_elem_of_singleton in He as ->.
    apply list_lookup_fmap_Some in Eip as (li & -> & Hli).
    destruct (first_match_spec _ _ _ Em) as (j & Hj & Hp & Hk).
    exists i, li, delay, stopped, j, line. split; [set_solver|].
    do 2 (split; [done|]). split; [|done].
    eapply first_match_le; eauto using ip_port_prefix.
  - destruct stopped; [set_solver|].
    destruct (IH He) as (i' & li & d & st & j & line & Hin & Hrest).
    exists i', li, d, st, j, line. split; [set_solver|done].
Qed.

(** ** [line.split('#')[0]] *)

(** [line.split('#')[0]] (lines 64 and 94) is the text of the line before
    its first [#] (the whole line when it has none). *)
Theorem ip_port_before_hash (line : ustr) :
  (hash_char ∉ ip_port line) /\
  exists rest, line = ip_port line ++ rest /\ (rest = [] \/ exists r, rest = hash_char :: r).
Proof.
  split.
  - unfold ip_port. intros Hin.
    assert (Hhd : hd [] (split_on hash_char line) ∈ split_on hash_char line).
    { destruct (split_on hash_char line) eqn:E; simpl; [|set_solver].
      destruct line; simpl in E; [done|]. destruct (_ =? _)%N; [done|].
      destruct (split_on hash_char line); done. }
    by apply (split_on_no_sep _ _ _ Hhd).
  - apply split_on_head.
Qed.

(** ** Witnesses of the further properties *)

Lemma ex_input_run : filter_ips_result ∅ [] ex_input 1 ex_result.
Proof.
  unfold filter_ips_result, ex_result.
  replace (worklist ex_input) with
    [(u "IN", [u "3.3.3.3:443#IN"]); (u "NL", [u "2.2.2.2:443#NL"]);
     (u "US", [u "1.1.1.1:443#US"])] by (vm_compute; reflexivity).
  apply (cr_cons 1 ∅ [] (u "IN") [u "3.3.3.3:443#IN"] _ (ex_one "3.3.3.3" 30) ex_s_IN);
    [vm_compute; reflexivity|vm_compute; reflexivity|].
  apply (cr_cons 1 _ _ (u "NL") [u "2.2.2.2:443#NL"] _ (ex_one "2.2.2.2" 20) ex_s_NL);
    [vm_compute; reflexivity|vm_compute; reflexivity|].
  apply (cr_cons 1 _ _ (u "US") [u "1.1.1.1:443#US"] _ (ex_one "1.1.1.1" 10) ex_s_US);
    [vm_compute; reflexivity|vm_compute; reflexivity|].
  apply cr_nil.
Qed.

Lemma validate_country_probes_per_line_witness :
  let s := final [ex_a; ex_b; ex_c] 2 ex_run3 (vinit [ex_a; ex_b; ex_c] ∅ []) in
  vrun [ex_a; ex_b; ex_c] 2 ex_run3 (vinit [ex_a; ex_b; ex_c] ∅ []) = Some s /\
  ((exists idx : list nat, NoDup idx /\
      Forall2 (fun i p => exists line, [ex_a; ex_b; ex_c] !! i = Some line /\ p = ip_port line)
        idx s.(v_probes)) /\
   length s.(v_probes) <= length [ex_a; ex_b; ex_c]).
Proof.
  intros s. split; [vm_compute; reflexivity|].
  apply (validate_country_probes_per_line [ex_a; ex_b; ex_c] 2 ∅ [] ex_run3 s).
  vm_compute; reflexivity.
Defined.

Lemma validate_country_valid_le_consumed_witness :
  let s := final [ex_a; ex_b; ex_c] 2 ex_run3 (vinit [ex_a; ex_b; ex_c] ∅ []) in
  vrun [ex_a; ex_b; ex_c] 2 ex_run3 (vinit [ex_a; ex_b; ex_c] ∅ []) = Some s /\
  length s.(v_valid) <= countb is_consumed s.(v_phase) <= length [ex_a; ex_b; ex_c].
Proof.
  intros s. split; [vm_compute; reflexivity|].
  apply (validate_country_valid_le_consumed [ex_a; ex_b; ex_c] 2 ∅ [] ex_run3 s).
  vm_compute; reflexivity.
Defined.

Lemma validate_country_log_appends_witness :
  let s := final [ex_a; ex_b; ex_c] 2 ex_run3 (vinit [ex_a; ex_b; ex_c] ∅ []) in
  vrun [ex_a; ex_b; ex_c] 2 ex_run3 (vinit [ex_a; ex_b; ex_c] ∅ []) = Some s /\
  exists new, s.(v_log) = [] ++ new /\ length new <= length s.(v_probes) /\
    forall l, l ∈ new -> exists line res, line ∈ [ex_a; ex_b; ex_c] /\
      l = log_line (ip_port line) res.
Proof.
  intros s. split; [vm_compute; reflexivity|].
  apply (validate_country_log_appends [ex_a; ex_b; ex_c] 2 ∅ [] ex_run3 s).
  vm_compute; reflexivity.
Defined.

Lemma validate_country_cache_keys_witness :
  let s := final [ex_a; ex_b; ex_c] 2 ex_run3 (vinit [ex_a; ex_b; ex_c] ex_cache_other []) in
  vrun [ex_a; ex_b; ex_c] 2 ex_run3 (vinit [ex_a; ex_b; ex_c] ex_cache_other []) = Some s /\
  finished s = true /\
  (forall tr' s' k, vrun [ex_a; ex_b; ex_c] 2 tr' s = Some s' ->
     is_Some (s.(v_cache) !! k) -> is_Some (s'.(v_cache) !! k)) /\
  (forall k, is_Some (s.(v_cache) !! k) -> is_Some (ex_cache_other !! k) \/ k ∈ s.(v_probes)) /\
  (finished s = true ->
   forall k, is_Some (s.(v_cache) !! k) <-> is_Some (ex_cache_other !! k) \/ k ∈ s.(v_probes)).
Proof.
  intros s.
  assert (Hrun : vrun [ex_a; ex_b; ex_c] 2 ex_run3
                   (vinit [ex_a; ex_b; ex_c] ex_cache_other []) = Some s)
    by (vm_compute; reflexivity).
  split; [exact Hrun|]. split; [vm_compute; reflexivity|].
  exact (validate_country_cache_keys [ex_a; ex_b; ex_c] 2 ex_cache_other [] ex_run3 s Hrun).
Defined.

Lemma worklist_buckets_nonempty_witness :
  (u "US", [u "1.1.1.1:443#US"]) ∈ worklist ex_input /\
  ([u "1.1.1.1:443#US"] <> [] /\
   exists a b, u "US" = [a; b] /\ is_upper a = true /\ is_upper b = true).
Proof.
  assert (Hin : (u "US", [u "1.1.1.1:443#US"]) ∈ worklist ex_input).
  { apply (bool_decide_unpack _). vm_compute. exact I. }
  split; [exact Hin|].
  exact (worklist_buckets_nonempty ex_input (u "US") [u "1.1.1.1:443#US"] Hin).
Defined.

Lemma worklist_line_shape_witness :
  (u "NL", [u "2.2.2.2:443#NL"]) ∈ worklist ex_input /\
  u "2.2.2.2:443#NL" ∈ [u "2.2.2.2:443#NL"] /\
  ((forall c t, u "2.2.2.2:443#NL" = c :: t -> is_space c = false) /\
   (forall c t, rev (u "2.2.2.2:443#NL") = c :: t -> is_space c = false) /\
   (10%N ∉ u "2.2.2.2:443#NL") /\
   contains (u ":443#") (u "2.2.2.2:443#NL") = true /\
   exists pre a b, u "2.2.2.2:443#NL" = pre ++ [hash_char; a; b] /\ u "NL" = [a; b] /\
     is_upper a = true /\ is_upper b = true).
Proof.
  assert (Hin : (u "NL", [u "2.2.2.2:443#NL"]) ∈ worklist ex_input).
  { apply (bool_decide_unpack _). vm_compute. exact I. }
  assert (Hl : u "2.2.2.2:443#NL" ∈ [u "2.2.2.2:443#NL"]).
  { apply (bool_decide_unpack _). vm_compute. exact I. }
  split; [exact Hin|]. split; [exact Hl|].
  exact (worklist_line_shape ex_input (u "NL") _ _ Hin Hl).
Defined.

Lemma filter_ips_result_length_witness :
  filter_ips_result ∅ [] ex_input 1 ex_result /\
  exists outs, ex_result = concat outs /\
    Forall2 (fun cl o => length o <= Z.to_nat (Z.max 0 1) /\
               length o <= length cl.2 /\
               forall e, e ∈ o -> exists line d, line ∈ cl.2 /\ e = entry line d)
      (worklist ex_input) outs.
Proof.
  split; [exact ex_input_run|].
  exact (filter_ips_result_length ∅ [] ex_input 1 ex_result ex_input_run).
Defined.

Lemma filter_ips_no_candidates_witness :
  Forall (fun raw => contains (u ":443#") (strip raw) = false) (split_on 10%N (strip ex_no443)) /\
  filter_ips_result ∅ [] ex_no443 2 [] /\
  (worklist ex_no443 = [] /\ @nil ustr = [] /\ filter_ips_output [] = []).
Proof.
  assert (Hno : Forall (fun raw => contains (u ":443#") (strip raw) = false)
                  (split_on 10%N (strip ex_no443))).
  { vm_compute. repeat constructor. }
  assert (Hr : filter_ips_result ∅ [] ex_no443 2 []).
  { unfold filter_ips_result. replace (worklist ex_no443) with (@nil (ustr * list ustr))
      by (vm_compute; reflexivity). apply cr_nil. }
  split; [exact Hno|]. split; [exact Hr|].
  exact (filter_ips_no_candidates ∅ [] ex_no443 2 [] Hno Hr).
Defined.

Lemma main_writes_iff_accepted_witness :
  filter_ips_result ∅ [] ex_input 1 ex_result /\
  (main_report (filter_ips_output ex_result) = None <-> ex_result = []).
Proof.
  split; [exact ex_input_run|].
  exact (main_writes_iff_accepted ∅ [] ex_input 1 ex_result ex_input_run).
Defined.

Lemma main_count_accurate_witness :
  filter_ips_result ∅ [] ex_input 1 ex_result /\ ex_result <> [] /\
  (forall e c, e ∈ ex_result -> c ∈ e -> is_line_break c = false) /\
  main_report (filter_ips_output ex_result) = Some (filter_ips_output ex_result, length ex_result).
Proof.
  assert (Hne : ex_result <> []) by (vm_compute; discriminate).
  assert (Hnb : forall e c, e ∈ ex_result -> c ∈ e -> is_line_break c = false).
  { assert (Hall : bool_decide (Forall (fun e => Forall (fun c => is_line_break c = false) e)
                                  ex_result) = true) by (vm_compute; reflexivity).
    apply bool_decide_eq_true in Hall. intros e c He Hc.
    rewrite Forall_forall in Hall. specialize (Hall e He). rewrite Forall_forall in Hall.
    by apply Hall. }
  split; [exact ex_input_run|]. split; [exact Hne|]. split; [exact Hnb|].
  exact (main_count_accurate ∅ [] ex_input 1 ex_result ex_input_run Hne Hnb).
Defined.

Lemma validate_batch_entries_witness :
  validate_batch ex_batch [(1, (true, JInt 20), false)] =
    Some [entry (u "1.1.1.1:443#US") (JInt 20)] /\
  entry (u "1.1.1.1:443#US") (JInt 20) ∈ [entry (u "1.1.1.1:443#US") (JInt 20)] /\
  exists i li delay stopped j line,
    (i, (true, delay), stopped) ∈ [(1, (true, JInt 20), false)] /\ ex_batch !! i = Some li /\
    ex_batch !! j = Some line /\ j <= i /\
    is_prefix (ip_port li) line = true /\
    (forall k lk, k < j -> ex_batch !! k = Some lk -> is_prefix (ip_port li) lk = false) /\
    entry (u "1.1.1.1:443#US") (JInt 20) = entry line delay.
Proof.
  assert (Hv : validate_batch ex_batch [(1, (true, JInt 20), false)] =
                 Some [entry (u "1.1.1.1:443#US") (JInt 20)]) by (vm_compute; reflexivity).
  assert (He : entry (u "1.1.1.1:443#US") (JInt 20) ∈ [entry (u "1.1.1.1:443#US") (JInt 20)])
    by (apply list_elem_of_singleton; reflexivity).
  split; [exact Hv|]. split; [exact He|].
  exact (validate_batch_entries ex_batch _ _ _ Hv He).
Defined.

